(** * Speech activity detection pipelines

    A shallow embedding of
    [pyannote/audio/pipeline/speech_activity_detection.py]:
    the two pipelines [OracleSpeechActivityDetection] and
    [SpeechActivityDetection], with the parts of numpy, pyannote.core and
    pyannote.audio they call.

    Conventions.
    - Python floats are IEEE binary64 numbers: Rocq's primitive [float].
    - A method that mutates [self], emits warnings, calls a collaborator
      or raises is a computation in the monad [M]: a state (the instance
      and the log of observable events) is threaded through, and an
      exception keeps the state reached when it was raised, as in Python.
    - An attribute that an instance may lack ([_pretrained], [_binarize],
      [log_scale_], ...) is an [option]: [None] is "no such attribute".
    - What the file imports and does not define (the exponential, the file
      system, the score stores, the binarizer) is a field of the class
      [Extern]; every theorem holds for every instance of it. *)

From Stdlib Require Import Floats String Ascii List Bool Arith Lia Uint63 ZArith Sorted.
Import ListNotations.

Set Warnings "-inexact-float".
Set Implicit Arguments.

Local Open Scope string_scope.
Local Open Scope list_scope.

(** ** Exceptions and the state-and-exception monad *)

Inductive exn : Type :=
| NameError (name : string)
| AttributeError (attr : string)
| KeyError (key : string)
| ValueError (msg : string)
| IndexError (msg : string)
| TypeError (msg : string)
| Raised (class_name : string) (msg : string). (* a class of a library *)

Definition result (A : Type) : Type := (exn + A)%type.

Definition M (S A : Type) : Type := S -> result A * S.

Definition ret {S A} (a : A) : M S A := fun s => (inr a, s).

Definition raise {S A} (e : exn) : M S A := fun s => (inl e, s).

Definition bind {S A B} (m : M S A) (k : A -> M S B) : M S B :=
  fun s =>
    match m s with
    | (inr a, s') => k a s'
    | (inl e, s') => (inl e, s')
    end.

Definition modify {S} (f : S -> S) : M S unit := fun s => (inr tt, f s).

Definition lift {S A} (r : result A) : M S A := fun s => (r, s).

Declare Scope py_scope.
Delimit Scope py_scope with py.
Notation "x <- m ;; k" := (bind m (fun x => k))
  (at level 100, m at next level, right associativity) : py_scope.
Notation "m ;; k" := (bind m (fun _ => k))
  (at level 100, right associativity) : py_scope.
Local Open Scope py_scope.

(** [obj.attr] on an attribute that may be missing. *)
Definition getattr {S A} (attr : string) (o : option A) : M S A :=
  match o with
  | Some a => ret a
  | None => raise (AttributeError attr)
  end.

(** [d[key]] on a dict entry that may be missing. *)
Definition getitem {S A} (key : string) (o : option A) : M S A :=
  match o with
  | Some a => ret a
  | None => raise (KeyError key)
  end.

(** ** numpy arrays of floats *)

Inductive ndarray : Type :=
| Array1 (xs : list float)                         (* shape (n,)       *)
| Array2 (ncols : nat) (rows : list (list float)). (* shape (n, ncols),
                                                      each row of ncols values *)

(** All the elements, in row-major order. *)
Definition flat (a : ndarray) : list float :=
  match a with
  | Array1 xs => xs
  | Array2 _ rows => concat rows
  end.

(** Element-wise application of a function ([np.exp(a)], [1. - a]). *)
Definition map_array (f : float -> float) (a : ndarray) : ndarray :=
  match a with
  | Array1 xs => Array1 (map f xs)
  | Array2 c rows => Array2 c (map (map f) rows)
  end.

(** [a.shape[1]]: a one-dimensional array has a 1-tuple for shape. *)
Definition shape1 {S} (a : ndarray) : M S nat :=
  match a with
  | Array1 _ => raise (IndexError "tuple index out of range")
  | Array2 c _ => ret c
  end.

(** [a[:, j]] for a two-dimensional array. *)
Definition column (j : nat) (rows : list (list float)) : list float :=
  map (fun r => nth j r nan) rows.

(** *** Sums

    numpy adds the elements of an array in an order of its own, which
    decides how the sum is rounded ([pairwise_sum] of its loops on
    floats): fewer than 8 elements are added in order, from zero; up to
    128 elements are added into 8 accumulators, block of 8 after block of
    8, the accumulators are added in pairs and the elements left over are
    added in order; a longer array is cut in two at a multiple of 8 and
    the sums of the halves are added.  An array of scores is contiguous in
    memory, so that all its elements, rows after rows, reach the loop as
    one run.  The algorithm is written for any addition, to be run on
    floats by the program and on exact numbers in the properties. *)

Section Summation.

Variable T : Type.
Variable add : T -> T -> T.
Variable zero : T.

(** [res += a[i]], element after element. *)
Definition accumulate (res : T) (xs : list T) : T := fold_left add xs res.

(** The loop on blocks of 8 elements with the accumulators [r]; returns
    the accumulators and the elements left over, fewer than 8. *)
Fixpoint unrolled (r : T * T * T * T * T * T * T * T) (xs : list T)
  : (T * T * T * T * T * T * T * T) * list T :=
  match xs with
  | a0 :: a1 :: a2 :: a3 :: a4 :: a5 :: a6 :: a7 :: rest =>
      let '(r0, r1, r2, r3, r4, r5, r6, r7) := r in
      unrolled (add r0 a0, add r1 a1, add r2 a2, add r3 a3,
                add r4 a4, add r5 a5, add r6 a6, add r7 a7) rest
  | _ => (r, xs)
  end.

(** The sum of an array of at most [PW_BLOCKSIZE] elements. *)
Definition block_sum (xs : list T) : T :=
  match xs with
  | a0 :: a1 :: a2 :: a3 :: a4 :: a5 :: a6 :: a7 :: rest =>
      let '((r0, r1, r2, r3, r4, r5, r6, r7), tail) :=
        unrolled (a0, a1, a2, a3, a4, a5, a6, a7) rest in
      accumulate
        (add (add (add r0 r1) (add r2 r3)) (add (add r4 r5) (add r6 r7))) tail
  | _ => accumulate zero xs
  end.

Definition PW_BLOCKSIZE : nat := 128.

(** [pairwise_sum] of numpy's loops; the recursion is on the length of
    the array, [fuel] bounds its depth. *)
Fixpoint pairwise_sum (fuel : nat) (xs : list T) : T :=
  match fuel with
  | O => block_sum xs
  | S fuel' =>
      let n := length xs in
      if (n <=? PW_BLOCKSIZE)%nat then block_sum xs
      else
        let n2 := (n / 2 - (n / 2) mod 8)%nat in
        add (pairwise_sum fuel' (firstn n2 xs)) (pairwise_sum fuel' (skipn n2 xs))
  end.

(** [np.add.reduce(xs)] over all the elements: the result starts from the
    identity of the addition, to which the sum of the run is added.  (What
    it starts from can only change the sign of a sum that is zero.) *)
Definition np_add_reduce (xs : list T) : T :=
  add zero (pairwise_sum (length xs) xs).

Variable is_nan : T -> bool.

(** [np.nansum(xs)]: the missing values are replaced by zero. *)
Definition nansum (xs : list T) : T :=
  np_add_reduce (map (fun x => if is_nan x then zero else x) xs).

(** The number of values that are not missing. *)
Definition count_non_nan (xs : list T) : nat :=
  length (filter (fun x => negb (is_nan x)) xs).

End Summation.

(** A list of zeros. *)
Definition zeros {T} (zero : T) (xs : list T) : Prop := Forall (fun x => x = zero) xs.

(** The sum of exact numbers. *)
Definition total (zs : list Z) : Z := fold_right Z.add 0%Z zs.

(** [np.sum(xs)] on floats. *)
Definition np_sum (xs : list float) : float := np_add_reduce PrimFloat.add 0%float xs.

Definition float_of_nat (n : nat) : float :=
  PrimFloat.of_uint63 (Uint63.of_Z (Z.of_nat n)).

(** [np.nanmean(a)] over all the elements of an array of floats: NaNs are
    replaced by zero and summed, and the total is divided by the number of
    elements that are not NaN.  With no such element the quotient is
    0/0. *)
Definition nanmean (a : ndarray) : float :=
  PrimFloat.div (nansum PrimFloat.add 0%float PrimFloat.is_nan (flat a))
                (float_of_nat (count_non_nan PrimFloat.is_nan (flat a))).

(** ** pyannote.core: segments, timelines, annotations, features *)

Definition Path : Type := string.

Module Segment.
Record t : Type := { start : float; end_ : float }.
Definition duration (s : t) : float := PrimFloat.sub (end_ s) (start s).
End Segment.

Module Timeline.
Record t : Type := { segments : list Segment.t; uri : option string }.
End Timeline.

Module Annotation.
(** Labelled segments, in time order. *)
Record t : Type :=
  { uri : option string;
    modality : option string;
    tracks : list (Segment.t * string) }.
End Annotation.

Module SlidingWindow.
Record t : Type := { start : float; duration : float; step : float }.
End SlidingWindow.

Module SlidingWindowFeature.
Record t : Type := { data : ndarray; sliding_window : SlidingWindow.t }.
End SlidingWindowFeature.

(** The file record handed to a pipeline: a dict of which three keys are
    read.  [None] is a missing key (for ['sad_scores'], read with [.get],
    also a key bound to [None]). *)
Module File.
Record t : Type :=
  { uri : option string;
    sad_scores : option SlidingWindowFeature.t;
    annotation : option Annotation.t }.
End File.

(** A score source, once built, is called on a file record: it returns a
    score curve or [None], or raises. *)
Definition Scorer : Type := File.t -> result (option SlidingWindowFeature.t).

(** ** pyannote.pipeline: hyper-parameters *)

(** A hyper-parameter attribute reads as its search range until the
    pipeline is instantiated, and as the chosen value afterwards. *)
Inductive Hyper : Type :=
| Uniform (low high : float)
| Instantiated (value : float).

Module Binarize.
Record t : Type :=
  { onset : Hyper;
    offset : Hyper;
    min_duration_on : Hyper;
    min_duration_off : Hyper;
    pad_onset : Hyper;
    pad_offset : Hyper }.
End Binarize.

(** ** pyannote.metrics: the detection error rate *)

Module DetectionErrorRate.
Record t : Type := { collar : float; skip_overlap : bool; parallel : bool }.
End DetectionErrorRate.

(** ** Observable events *)

Inductive Event : Type :=
| Warn (msg : string)
| CallPrecomputed (current_file : File.t)
| CallPretrained (current_file : File.t)
| CallBinarize (b : Binarize.t) (speech_prob : SlidingWindowFeature.t).

Definition emit_to {S} (push : Event -> S -> S) (e : Event) : M S unit :=
  modify (push e).

(** ** What the file imports and calls *)

Class Extern : Type :=
  { (** [np.exp] on one element *)
    np_exp : float -> float;
    (** [Path(p).exists()] *)
    Path_exists : Path -> bool;
    (** [Precomputed(root_dir)], the store of scores on disk *)
    Precomputed : Path -> Scorer;
    (** [Pretrained(validate_dir=p)] *)
    Pretrained : Path -> Scorer;
    (** [torch.hub.load(repo, name)] *)
    torch_hub_load : string -> Path -> Scorer;
    (** [Binarize.apply] *)
    Binarize_apply : Binarize.t -> SlidingWindowFeature.t -> result Timeline.t }.

(** The double-quote character, for messages. *)
Definition dquote : string := String (ascii_of_nat 34) EmptyString.

(** ** The module's namespace *)

(** Names bound at module level: the imports of lines 31 to 47, in order,
    and the two classes the file defines. *)
Definition module_globals : list string :=
  [ "Optional"; "Union"; "Text"; "Path"; "np"; "warnings";
    "Pipeline"; "Uniform";
    "Annotation"; "SlidingWindowFeature";
    "Binarize"; "Precomputed";
    "DetectionErrorRate";
    "OracleSpeechActivityDetection"; "SpeechActivityDetection" ].

(** Python's built-in functions, constants and exception classes. *)
Definition builtins : list string :=
  [ "abs"; "all"; "any"; "ascii"; "bin"; "bool"; "breakpoint"; "bytearray";
    "bytes"; "callable"; "chr"; "classmethod"; "compile"; "complex";
    "delattr"; "dict"; "dir"; "divmod"; "enumerate"; "eval"; "exec";
    "filter"; "float"; "format"; "frozenset"; "getattr"; "globals";
    "hasattr"; "hash"; "help"; "hex"; "id"; "input"; "int"; "isinstance";
    "issubclass"; "iter"; "len"; "list"; "locals"; "map"; "max";
    "memoryview"; "min"; "next"; "object"; "oct"; "open"; "ord"; "pow";
    "print"; "property"; "range"; "repr"; "reversed"; "round"; "set";
    "setattr"; "slice"; "sorted"; "staticmethod"; "str"; "sum"; "super";
    "tuple"; "type"; "vars"; "zip"; "__import__";
    "True"; "False"; "None"; "Ellipsis"; "NotImplemented"; "__debug__";
    "BaseException"; "Exception"; "ArithmeticError"; "AssertionError";
    "AttributeError"; "BufferError"; "EOFError"; "FloatingPointError";
    "GeneratorExit"; "ImportError"; "ModuleNotFoundError"; "IndexError";
    "KeyError"; "KeyboardInterrupt"; "LookupError"; "MemoryError";
    "NameError"; "NotImplementedError"; "OSError"; "IOError";
    "OverflowError"; "RecursionError"; "ReferenceError"; "RuntimeError";
    "StopIteration"; "StopAsyncIteration"; "SyntaxError";
    "IndentationError"; "TabError"; "SystemError"; "SystemExit";
    "TypeError"; "UnboundLocalError"; "UnicodeError"; "ValueError";
    "ZeroDivisionError"; "FileNotFoundError"; "FileExistsError";
    "PermissionError"; "TimeoutError";
    "Warning"; "UserWarning"; "DeprecationWarning"; "RuntimeWarning";
    "FutureWarning" ].

Definition is_bound (name : string) : bool :=
  existsb (String.eqb name) module_globals || existsb (String.eqb name) builtins.

(** Reading a global name inside a method: the module's namespace, then the
    built-ins, then [NameError]. *)
Definition load_global {S} (name : string) : M S unit :=
  if is_bound name then ret tt else raise (NameError name).

(** ** pyannote.core operations used by the pipelines *)

Definition fmax (a b : float) : float := if PrimFloat.leb a b then b else a.
Definition fmin (a b : float) : float := if PrimFloat.leb a b then a else b.

Definition seg_eqb (a b : Segment.t) : bool :=
  PrimFloat.eqb (Segment.start a) (Segment.start b)
  && PrimFloat.eqb (Segment.end_ a) (Segment.end_ b).

(** Segments are ordered as the pairs (start, end). *)
Definition seg_ltb (a b : Segment.t) : bool :=
  PrimFloat.ltb (Segment.start a) (Segment.start b)
  || (PrimFloat.eqb (Segment.start a) (Segment.start b)
      && PrimFloat.ltb (Segment.end_ a) (Segment.end_ b)).

Fixpoint insert_segment (s : Segment.t) (l : list Segment.t) : list Segment.t :=
  match l with
  | [] => [s]
  | x :: l' =>
      if seg_eqb s x then l
      else if seg_ltb s x then s :: l
      else x :: insert_segment s l'
  end.

(** Modelled from the spec: [Annotation.get_timeline] of pyannote.core,
    "the reference speech timeline"; the segments of the annotation in time
    order, each once. *)
Definition get_timeline (a : Annotation.t) : Timeline.t :=
  {| Timeline.segments :=
       fold_left (fun l s => insert_segment s l) (map fst (Annotation.tracks a)) [];
     Timeline.uri := Annotation.uri a |}.

Fixpoint support_from (cur : Segment.t) (l : list Segment.t) : list Segment.t :=
  match l with
  | [] => [cur]
  | s :: l' =>
      if PrimFloat.leb (Segment.start s) (Segment.end_ cur)
      then support_from
             {| Segment.start := Segment.start cur;
                Segment.end_ := fmax (Segment.end_ cur) (Segment.end_ s) |} l'
      else cur :: support_from s l'
  end.

(** Modelled from the spec: [Timeline.support] of pyannote.core, "the
    support (union)" of a timeline; segments in time order with no gap
    between them are replaced by their union. *)
Definition support (tl : Timeline.t) : Timeline.t :=
  {| Timeline.segments :=
       match Timeline.segments tl with
       | [] => []
       | s :: l => support_from s l
       end;
     Timeline.uri := Timeline.uri tl |}.

Definition letter (k : nat) : ascii := ascii_of_nat (65 + k).

Fixpoint string_generator_aux (fuel n : nat) : string :=
  match fuel with
  | O => EmptyString
  | S fuel' =>
      if Nat.ltb n 26 then String (letter n) EmptyString
      else (string_generator_aux fuel' (n / 26 - 1)
            ++ String (letter (n mod 26)) EmptyString)%string
  end.

(** Modelled from the spec: the "sequential string identifiers" of the
    label scheme; the n-th label of pyannote.core's string generator:
    A, ..., Z, AA, AB, ... *)
Definition string_generator (n : nat) : string := string_generator_aux (S n) n.

(** Modelled from the spec: [Timeline.to_annotation(generator='string',
    modality=m)] of pyannote.core; every segment gets the next label. *)
Definition to_annotation (tl : Timeline.t) (modality : string) : Annotation.t :=
  let segs := Timeline.segments tl in
  {| Annotation.uri := Timeline.uri tl;
     Annotation.modality := Some modality;
     Annotation.tracks := combine segs (map string_generator (seq 0 (length segs))) |}.

(** ** class OracleSpeechActivityDetection *)

Module OracleSpeechActivityDetection.

Definition __call__ (current_file : File.t) : result Annotation.t :=
  match File.annotation current_file with
  | None => inl (KeyError "annotation")
  | Some annotation =>
      let speech := support (get_timeline annotation) in
      inr (to_annotation speech "speech")
  end.

End OracleSpeechActivityDetection.

(** ** class SpeechActivityDetection *)

Module SpeechActivityDetection.

(** The attributes of an instance. *)
Record t : Type :=
  { precomputed : option Path;
    _precomputed : option Scorer;
    pretrained : option Path;
    _pretrained : option Scorer;
    onset : Hyper;
    offset : Hyper;
    min_duration_on : Hyper;
    min_duration_off : Hyper;
    pad_onset : Hyper;
    pad_offset : Hyper;
    _binarize : option Binarize.t;
    log_scale_ : option bool }.

Definition set__binarize (b : Binarize.t) (self : t) : t :=
  {| precomputed := precomputed self;
     _precomputed := _precomputed self;
     pretrained := pretrained self;
     _pretrained := _pretrained self;
     onset := onset self;
     offset := offset self;
     min_duration_on := min_duration_on self;
     min_duration_off := min_duration_off self;
     pad_onset := pad_onset self;
     pad_offset := pad_offset self;
     _binarize := Some b;
     log_scale_ := log_scale_ self |}.

Definition set_log_scale_ (v : bool) (self : t) : t :=
  {| precomputed := precomputed self;
     _precomputed := _precomputed self;
     pretrained := pretrained self;
     _pretrained := _pretrained self;
     onset := onset self;
     offset := offset self;
     min_duration_on := min_duration_on self;
     min_duration_off := min_duration_off self;
     pad_onset := pad_onset self;
     pad_offset := pad_offset self;
     _binarize := _binarize self;
     log_scale_ := Some v |}.

(** The state a method runs in: the instance, and what the caller and
    the collaborators have seen of it so far, oldest first. *)
Record World : Type := { self : t; log : list Event }.

Definition get_self : M World t := fun w => (inr (self w), w).

Definition update_self (f : t -> t) : M World unit :=
  modify (fun w => {| self := f (self w); log := log w |}).

Definition emit (e : Event) : M World unit :=
  emit_to (fun e w => {| self := self w; log := log w ++ [e] |}) e.

(** [warnings.warn(msg)] while the instance is being built. *)
Definition warn (msg : string) : M (list Event) unit :=
  emit_to (fun e l => l ++ [e]) (Warn msg).

Definition __init__ `{Extern}
    (precomputed scores pretrained : option Path) : M (list Event) t :=
  load_global "super" ;;
  (* deprecation warning (scores --> precomputed) *)
  precomputed <-
    match scores with
    | Some _ =>
        let msg := (dquote ++ "scores" ++ dquote ++ " is being deprecated in favor of "
                    ++ dquote ++ "precomputed" ++ dquote ++ ".")%string in
        load_global "warnings" ;;
        warn msg ;;
        ret scores
    | None => ret precomputed
    end ;;
  _precomputed <-
    match precomputed with
    | Some root_dir =>
        load_global "Precomputed" ;;
        ret (Some (Precomputed root_dir))
    | None => ret None
    end ;;
  _pretrained <-
    match pretrained with
    | Some p =>
        load_global "Path" ;;
        if Path_exists p then
          load_global "Pretrained" ;;
          ret (Some (Pretrained p))
        else
          load_global "torch" ;;
          ret (Some (torch_hub_load "pyannote/pyannote-audio" p))
    | None => ret None
    end ;;
  (* hyper-parameters *)
  load_global "Uniform" ;;
  ret {| precomputed := precomputed;
         _precomputed := _precomputed;
         pretrained := pretrained;
         _pretrained := _pretrained;
         onset := Uniform 0 1;
         offset := Uniform 0 1;
         min_duration_on := Uniform 0 2;
         min_duration_off := Uniform 0 2;
         pad_onset := Uniform (-1) 1;
         pad_offset := Uniform (-1) 1;
         _binarize := None;
         log_scale_ := None |}.

(** Initialize pipeline with current set of parameters. *)
Definition initialize : M World unit :=
  self <- get_self ;;
  update_self
    (set__binarize
       {| Binarize.onset := onset self;
          Binarize.offset := offset self;
          Binarize.min_duration_on := min_duration_on self;
          Binarize.min_duration_off := min_duration_off self;
          Binarize.pad_onset := pad_onset self;
          Binarize.pad_offset := pad_offset self |}).

(** The curve handed to the binarizer (lines 177 to 181). *)
Definition speech_vs_non_speech
    (data : ndarray) (sliding_window : SlidingWindow.t)
    : M World SlidingWindowFeature.t :=
  ncols <- shape1 data ;;
  if Nat.ltb 1 ncols then
    match data with
    | Array2 _ rows =>
        ret {| SlidingWindowFeature.data :=
                 Array1 (map (fun x => PrimFloat.sub 1 x) (column 0 rows));
               SlidingWindowFeature.sliding_window := sliding_window |}
    | Array1 _ => raise (IndexError "too many indices for array")
    end
  else
    ret {| SlidingWindowFeature.data := data;
           SlidingWindowFeature.sliding_window := sliding_window |}.

(** The raw scores of a file (lines 149 to 164). *)
Definition raw_scores (current_file : File.t) : M World SlidingWindowFeature.t :=
  (* use pre-loaded SAD scores when available *)
  let sad_scores := File.sad_scores current_file in
  sad_scores <-
    match sad_scores with
    | None =>
        (* use precomputed SAD scores when available
           otherwise use pretrained model *)
        self <- get_self ;;
        match precomputed self with
        | None =>
            model <- getattr "_pretrained" (_pretrained self) ;;
            emit (CallPretrained current_file) ;;
            lift (model current_file)
        | Some _ =>
            store <- getattr "_precomputed" (_precomputed self) ;;
            emit (CallPrecomputed current_file) ;;
            lift (store current_file)
        end
    | Some _ => ret sad_scores
    end ;;
  match sad_scores with
  | None =>
      uri <- getitem "uri" (File.uri current_file) ;;
      let msg := ("Could not get raw SAD scores for file " ++ uri ++ ".")%string in
      raise (ValueError msg)
  | Some s => ret s
  end.

(** The scores on a linear scale (lines 166 to 175). *)
Definition linear_scores `{Extern} (sad_scores : SlidingWindowFeature.t)
  : M World ndarray :=
  (* if this check has not been done yet, do it once and for all *)
  self <- get_self ;;
  match log_scale_ self with
  | None =>
      (* heuristic to determine whether scores are log-scaled *)
      if PrimFloat.ltb (nanmean (SlidingWindowFeature.data sad_scores)) 0
      then update_self (set_log_scale_ true)
      else update_self (set_log_scale_ false)
  | Some _ => ret tt
  end ;;
  self <- get_self ;;
  is_log <- getattr "log_scale_" (log_scale_ self) ;;
  ret (if is_log : bool
       then map_array np_exp (SlidingWindowFeature.data sad_scores)
       else SlidingWindowFeature.data sad_scores).

(** The speech regions of a curve (lines 183 to 186). *)
Definition speech_regions `{Extern}
    (current_file : File.t) (speech_prob : SlidingWindowFeature.t)
    : M World Annotation.t :=
  self <- get_self ;;
  binarize <- getattr "_binarize" (_binarize self) ;;
  emit (CallBinarize binarize speech_prob) ;;
  speech <- lift (Binarize_apply binarize speech_prob) ;;
  uri <- getitem "uri" (File.uri current_file) ;;
  let speech :=
    {| Timeline.segments := Timeline.segments speech;
       Timeline.uri := Some uri |} in
  ret (to_annotation speech "speech").

(** Apply speech activity detection. *)
Definition __call__ `{Extern} (current_file : File.t) : M World Annotation.t :=
  sad_scores <- raw_scores current_file ;;
  data <- linear_scores sad_scores ;;
  speech_prob <-
    speech_vs_non_speech data (SlidingWindowFeature.sliding_window sad_scores) ;;
  speech_regions current_file speech_prob.

(** Return new instance of detection error rate metric. *)
Definition get_metric (parallel : bool) : DetectionErrorRate.t :=
  {| DetectionErrorRate.collar := 0;
     DetectionErrorRate.skip_overlap := false;
     DetectionErrorRate.parallel := parallel |}.

End SpeechActivityDetection.

(** ** The binarizer

    [pyannote.audio.utils.signal.Binarize] is imported by the file and is
    not part of it. *)

Module HysteresisBinarizer.

Record BinarizationParameters : Type :=
  { onset : float;
    offset : float;
    min_duration_on : float;
    min_duration_off : float;
    pad_onset : float;
    pad_offset : float }.

Section Apply.

Variable params : BinarizationParameters.
Variable window : SlidingWindow.t.

(** Start time of the i-th window of the sliding window. *)
Definition window_start (i : nat) : float :=
  PrimFloat.add (SlidingWindow.start window)
                (PrimFloat.mul (float_of_nat i) (SlidingWindow.step window)).

(** End of a curve of [n] windows: the end of its last window. *)
Definition curve_end (n : nat) : float :=
  PrimFloat.add (window_start (n - 1)) (SlidingWindow.duration window).

(** Modelled from the spec: steps 1 to 4 of [Binarize.apply], the scan.
    [state] is [None] in "non-speech" and holds the provisional start in
    "speech"; [i] is the index of the window of the first value of [ys];
    [stop] is the end of the curve. *)
Fixpoint scan (stop : float) (i : nat) (state : option float) (ys : list float)
  : list Segment.t :=
  match ys with
  | [] =>
      match state with
      | Some s => [ {| Segment.start := s; Segment.end_ := stop |} ]
      | None => []
      end
  | y :: ys' =>
      match state with
      | None =>
          if PrimFloat.leb (onset params) y
          then scan stop (S i) (Some (window_start i)) ys'
          else scan stop (S i) None ys'
      | Some s =>
          if PrimFloat.leb y (offset params)
          then {| Segment.start := s; Segment.end_ := window_start i |}
               :: scan stop (S i) None ys'
          else scan stop (S i) (Some s) ys'
      end
  end.

Definition clip (total x : float) : float := fmin (fmax x 0) total.

(** Modelled from the spec: step 5 of [Binarize.apply]; padding, clipped
    to the curve; a region left with no length is removed. *)
Definition pad (total : float) (regions : list Segment.t) : list Segment.t :=
  filter (fun s => PrimFloat.ltb (Segment.start s) (Segment.end_ s))
    (map (fun s =>
            {| Segment.start :=
                 clip total (PrimFloat.sub (Segment.start s) (pad_onset params));
               Segment.end_ :=
                 clip total (PrimFloat.add (Segment.end_ s) (pad_offset params)) |})
         regions).

(** Modelled from the spec: step 6 of [Binarize.apply]; a gap shorter
    than [min_duration_off] is filled. *)
Fixpoint merge_from (cur : Segment.t) (l : list Segment.t) : list Segment.t :=
  match l with
  | [] => [cur]
  | s :: l' =>
      let gap := PrimFloat.sub (Segment.start s) (Segment.end_ cur) in
      if PrimFloat.ltb gap (min_duration_off params)
      then merge_from
             {| Segment.start := Segment.start cur;
                Segment.end_ := fmax (Segment.end_ cur) (Segment.end_ s) |} l'
      else cur :: merge_from s l'
  end.

Definition merge (regions : list Segment.t) : list Segment.t :=
  match regions with
  | [] => []
  | s :: l => merge_from s l
  end.

(** Modelled from the spec: step 7 of [Binarize.apply]; a region shorter
    than [min_duration_on] is dropped. *)
Definition drop_short (regions : list Segment.t) : list Segment.t :=
  filter (fun s => negb (PrimFloat.ltb (Segment.duration s) (min_duration_on params)))
         regions.

(** Modelled from the spec: the body of [Binarize.apply] of
    pyannote.audio.utils.signal, which is not among the sources; the
    double-threshold algorithm of the "HysteresisBinarizer" component,
    steps 1 to 8, on the values of a curve with one value per window. *)
Definition binarize (ys : list float) : list Segment.t :=
  let stop := curve_end (length ys) in
  drop_short (merge (pad stop (scan stop 0 None ys))).

End Apply.

(** The values of a curve with exactly one value per window. *)
Definition samples (a : ndarray) : result (list float) :=
  match a with
  | Array1 xs => inr xs
  | Array2 1 rows => inr (column 0 rows)
  | Array2 _ _ => inl (ValueError "expected one value per window")
  end.

Definition value (name : string) (h : Hyper) : result float :=
  match h with
  | Instantiated v => inr v
  | Uniform _ _ => inl (TypeError name)
  end.

Definition rbind {A B} (r : result A) (k : A -> result B) : result B :=
  match r with
  | inr a => k a
  | inl e => inl e
  end.

(** The parameters held by a [Binarize] object, once all are values. *)
Definition parameters (b : Binarize.t) : result BinarizationParameters :=
  rbind (value "onset" (Binarize.onset b)) (fun on_ =>
  rbind (value "offset" (Binarize.offset b)) (fun off_ =>
  rbind (value "min_duration_on" (Binarize.min_duration_on b)) (fun mon =>
  rbind (value "min_duration_off" (Binarize.min_duration_off b)) (fun moff =>
  rbind (value "pad_onset" (Binarize.pad_onset b)) (fun pon =>
  rbind (value "pad_offset" (Binarize.pad_offset b)) (fun poff =>
  inr {| onset := on_; offset := off_;
         min_duration_on := mon; min_duration_off := moff;
         pad_onset := pon; pad_offset := poff |})))))).

(** Modelled from the spec: [Binarize(...).apply(speech_prob)] of
    pyannote.audio.utils.signal, for a [Binarize] object built by
    [initialize]: the parameters must be values, and the curve must hold
    one value per window. *)
Definition apply (b : Binarize.t) (speech_prob : SlidingWindowFeature.t)
  : result Timeline.t :=
  rbind (parameters b) (fun params =>
  rbind (samples (SlidingWindowFeature.data speech_prob)) (fun ys =>
  inr {| Timeline.segments :=
           binarize params (SlidingWindowFeature.sliding_window speech_prob) ys;
         Timeline.uri := None |})).

End HysteresisBinarizer.

(** ** Instantiating a pipeline and running it *)

(** Modelled from the spec: [Pipeline.instantiate] of pyannote.pipeline,
    which is not among the sources; the "runtime-tunable
    hyper-parameters" take their values, then the pipeline is
    initialized. *)
Definition instantiate (p : HysteresisBinarizer.BinarizationParameters)
  : M SpeechActivityDetection.World unit :=
  SpeechActivityDetection.update_self
    (fun self =>
       {| SpeechActivityDetection.precomputed := SpeechActivityDetection.precomputed self;
          SpeechActivityDetection._precomputed := SpeechActivityDetection._precomputed self;
          SpeechActivityDetection.pretrained := SpeechActivityDetection.pretrained self;
          SpeechActivityDetection._pretrained := SpeechActivityDetection._pretrained self;
          SpeechActivityDetection.onset :=
            Instantiated (HysteresisBinarizer.onset p);
          SpeechActivityDetection.offset :=
            Instantiated (HysteresisBinarizer.offset p);
          SpeechActivityDetection.min_duration_on :=
            Instantiated (HysteresisBinarizer.min_duration_on p);
          SpeechActivityDetection.min_duration_off :=
            Instantiated (HysteresisBinarizer.min_duration_off p);
          SpeechActivityDetection.pad_onset :=
            Instantiated (HysteresisBinarizer.pad_onset p);
          SpeechActivityDetection.pad_offset :=
            Instantiated (HysteresisBinarizer.pad_offset p);
          SpeechActivityDetection._binarize := SpeechActivityDetection._binarize self;
          SpeechActivityDetection.log_scale_ := SpeechActivityDetection.log_scale_ self |}) ;;
  SpeechActivityDetection.initialize.

(** The evaluation calls of a pipeline on a sequence of files, in order;
    an exception ends one call, not the sequence.  The outcomes are
    returned with the last state. *)
Fixpoint evaluate_all `{Extern} (files : list File.t) (w : SpeechActivityDetection.World)
  : list (result Annotation.t) * SpeechActivityDetection.World :=
  match files with
  | [] => ([], w)
  | f :: files' =>
      let (r, w') := SpeechActivityDetection.__call__ f w in
      let (rs, w'') := evaluate_all files' w' in
      (r :: rs, w'')
  end.

(** A newly built instance, nothing logged yet. *)
Definition fresh (self : SpeechActivityDetection.t) : SpeechActivityDetection.World :=
  {| SpeechActivityDetection.self := self; SpeechActivityDetection.log := [] |}.

(** ** A world to run the pipelines in *)

Fixpoint square_n (n : nat) (x : float) : float :=
  match n with
  | O => x
  | S n' => let y := square_n n' x in PrimFloat.mul y y
  end.

(** An approximation of the exponential, (1 + x/1024)^1024. *)
Definition exp_approx (x : float) : float :=
  square_n 10 (PrimFloat.add 1 (PrimFloat.div x 1024)).

(** Collaborators for running examples: the paths that exist on disk, a
    store and a model given as functions, and the binarizer above. *)
Definition world_with_files (files : list Path) (store model : Scorer) : Extern :=
  {| np_exp := exp_approx;
     Path_exists := fun p => existsb (String.eqb p) files;
     Precomputed := fun _ => store;
     Pretrained := fun _ => model;
     torch_hub_load := fun _ _ => model;
     Binarize_apply := HysteresisBinarizer.apply |}.

Definition world_of (store model : Scorer) : Extern :=
  world_with_files [] store model.

(** ** States and outcomes, for the statements *)

(** The state [w] with the flag [log_scale_] of its instance set. *)
Definition with_log_scale_ (v : bool) (w : SpeechActivityDetection.World)
  : SpeechActivityDetection.World :=
  {| SpeechActivityDetection.self :=
       SpeechActivityDetection.set_log_scale_ v (SpeechActivityDetection.self w);
     SpeechActivityDetection.log := SpeechActivityDetection.log w |}.

(** The state [w] after one more event. *)
Definition logged (e : Event) (w : SpeechActivityDetection.World)
  : SpeechActivityDetection.World :=
  {| SpeechActivityDetection.self := SpeechActivityDetection.self w;
     SpeechActivityDetection.log := SpeechActivityDetection.log w ++ [e] |}.

(** The source a call turns to for a file with no curve attached: the
    store when a location of precomputed scores was given, the pretrained
    model otherwise. *)
Definition consulted (self : SpeechActivityDetection.t) : option Scorer :=
  match SpeechActivityDetection.precomputed self with
  | Some _ => SpeechActivityDetection._precomputed self
  | None => SpeechActivityDetection._pretrained self
  end.

Definition consultation (self : SpeechActivityDetection.t) (f : File.t) : Event :=
  match SpeechActivityDetection.precomputed self with
  | Some _ => CallPrecomputed f
  | None => CallPretrained f
  end.

(** The message of the error raised for a file with no scores. *)
Definition unavailable (uri : string) : exn :=
  ValueError ("Could not get raw SAD scores for file " ++ uri ++ ".")%string.

(** What a source's answer for a file becomes. *)
Definition answer (f : File.t) (o : result (option SlidingWindowFeature.t))
  : result SlidingWindowFeature.t :=
  match o with
  | inl e => inl e
  | inr (Some s) => inr s
  | inr None =>
      match File.uri f with
      | Some uri => inl (unavailable uri)
      | None => inl (KeyError "uri")
      end
  end.

(** ** The order of floats and the instants of a timeline, for the statements *)

(** A key of a number: sign class, then exponent and mantissa, such that
    floats compare as their keys do in lexicographic order. *)
Definition key (f : spec_float) : option (Z * Z * Z) :=
  match f with
  | S754_nan => None
  | S754_zero _ => Some (0, 0, 0)%Z
  | S754_infinity false => Some (2, 0, 0)%Z
  | S754_infinity true => Some (-2, 0, 0)%Z
  | S754_finite false m e => Some (1, e, Zpos m)%Z
  | S754_finite true m e => Some (-1, - e, Zneg m)%Z
  end.

Definition lt3 (k1 k2 : Z * Z * Z) : Prop :=
  let '(a1, b1, c1) := k1 in
  let '(a2, b2, c2) := k2 in
  (a1 < a2 \/ (a1 = a2 /\ (b1 < b2 \/ (b1 = b2 /\ c1 < c2))))%Z.

Definition eq3 (k1 k2 : Z * Z * Z) : Prop :=
  let '(a1, b1, c1) := k1 in
  let '(a2, b2, c2) := k2 in
  (a1 = a2 /\ b1 = b2 /\ c1 = c2)%Z.

Definition order (f1 f2 : spec_float) (c : comparison) : Prop :=
  match key f1, key f2 with
  | Some k1, Some k2 =>
      match c with
      | Lt => lt3 k1 k2
      | Eq => eq3 k1 k2
      | Gt => lt3 k2 k1
      end
  | _, _ => False
  end.

Definition fkey (x : float) : option (Z * Z * Z) := key (Prim2SF x).

Definition olt (o1 o2 : option (Z * Z * Z)) : Prop :=
  match o1, o2 with
  | Some k1, Some k2 => lt3 k1 k2
  | _, _ => False
  end.

Definition oeq (o1 o2 : option (Z * Z * Z)) : Prop :=
  match o1, o2 with
  | Some k1, Some k2 => eq3 k1 k2
  | _, _ => False
  end.

(** The instants of a segment [start, end). *)
Definition instant_in (s : Segment.t) (t : float) : Prop :=
  PrimFloat.leb (Segment.start s) t = true /\ PrimFloat.ltb t (Segment.end_ s) = true.

Definition covers (segs : list Segment.t) (t : float) : Prop :=
  exists s, In s segs /\ instant_in s t.

Definition timed (s : Segment.t) : Prop :=
  PrimFloat.is_nan (Segment.start s) = false /\ PrimFloat.is_nan (Segment.end_ s) = false.

Definition starts_before (a b : Segment.t) : Prop :=
  PrimFloat.leb (Segment.start a) (Segment.start b) = true.

Definition apart (a b : Segment.t) : Prop :=
  PrimFloat.ltb (Segment.end_ a) (Segment.start b) = true.

(** ** Example data *)

Definition no_scores : Scorer := fun _ => inr None.

(** A store that holds no file: it raises for every file, as the store of
    precomputed scores does for a file whose scores are not on disk. *)
Definition empty_store : Scorer :=
  fun _ => inl (Raised "PyannoteFeatureExtractionError" "no precomputed features").

(** One-second windows from time zero. *)
Definition one_second : SlidingWindow.t :=
  {| SlidingWindow.start := 0;
     SlidingWindow.duration := 1;
     SlidingWindow.step := 1 |}.

Definition curve_of (a : ndarray) : SlidingWindowFeature.t :=
  {| SlidingWindowFeature.data := a;
     SlidingWindowFeature.sliding_window := one_second |}.

Definition file_of (uri : string) (scores : option SlidingWindowFeature.t) : File.t :=
  {| File.uri := Some uri; File.sad_scores := scores; File.annotation := None |}.

(** Ten seconds of speech probabilities, one value per window. *)
Definition scenario_curve : SlidingWindowFeature.t :=
  curve_of (Array2 1 [[0.1]; [0.1]; [0.9]; [0.9]; [0.9];
                      [0.2]; [0.2]; [0.9]; [0.9]; [0.1]]%float).

Definition scenario_params : HysteresisBinarizer.BinarizationParameters :=
  {| HysteresisBinarizer.onset := 0.5;
     HysteresisBinarizer.offset := 0.5;
     HysteresisBinarizer.min_duration_on := 0;
     HysteresisBinarizer.min_duration_off := 2;
     HysteresisBinarizer.pad_onset := 0;
     HysteresisBinarizer.pad_offset := 0 |}.

(** Log-probabilities of (non-speech, speech), two values per window. *)
Definition log_curve : SlidingWindowFeature.t :=
  curve_of (Array2 2 [[-0.1; -2.3]; [-0.2; -1.7]; [-1.9; -0.15]]%float).

(** Probabilities of (non-speech, speech), two values per window. *)
Definition linear_curve : SlidingWindowFeature.t :=
  curve_of (Array2 2 [[0.9; 0.1]; [0.8; 0.2]; [0.15; 0.85]]%float).

(** Sixteen windows of one value, two of them large and opposite; added
    in numpy's order their sum is -1, added from left to right it is 0. *)
Definition cancelling_curve : SlidingWindowFeature.t :=
  curve_of (Array2 1 [[1e16]; [-1]; [0]; [0]; [0]; [0]; [0]; [0];
                      [-1e16]; [0]; [0]; [0]; [0]; [0]; [0]; [0]]%float).

(** A curve of missing values. *)
Definition nan_curve : SlidingWindowFeature.t :=
  curve_of (Array2 1 [[nan]; [nan]; [nan]]).

Definition region (a b : float) : Segment.t :=
  {| Segment.start := a; Segment.end_ := b |}.

(** A reference with two overlapping speech segments. *)
Definition overlapping_reference : Annotation.t :=
  {| Annotation.uri := Some "ref";
     Annotation.modality := Some "speaker";
     Annotation.tracks := [(region 0 2, "alice"); (region 1 3, "bob")] |}.

Definition reference_file : File.t :=
  {| File.uri := Some "ref";
     File.sad_scores := None;
     File.annotation := Some overlapping_reference |}.

(** The instance built with no argument. *)
Definition just_built : SpeechActivityDetection.t :=
  {| SpeechActivityDetection.precomputed := None;
     SpeechActivityDetection._precomputed := None;
     SpeechActivityDetection.pretrained := None;
     SpeechActivityDetection._pretrained := None;
     SpeechActivityDetection.onset := Uniform 0 1;
     SpeechActivityDetection.offset := Uniform 0 1;
     SpeechActivityDetection.min_duration_on := Uniform 0 2;
     SpeechActivityDetection.min_duration_off := Uniform 0 2;
     SpeechActivityDetection.pad_onset := Uniform (-1) 1;
     SpeechActivityDetection.pad_offset := Uniform (-1) 1;
     SpeechActivityDetection._binarize := None;
     SpeechActivityDetection.log_scale_ := None |}.

(** An instance with the given sources, instantiated with the scenario's
    parameters and initialized; [log_scale_] is not set yet. *)
Definition instance_of (root : option Path) (store model : option Scorer)
  : SpeechActivityDetection.t :=
  {| SpeechActivityDetection.precomputed := root;
     SpeechActivityDetection._precomputed := store;
     SpeechActivityDetection.pretrained := None;
     SpeechActivityDetection._pretrained := model;
     SpeechActivityDetection.onset := Instantiated 0.5;
     SpeechActivityDetection.offset := Instantiated 0.5;
     SpeechActivityDetection.min_duration_on := Instantiated 0;
     SpeechActivityDetection.min_duration_off := Instantiated 2;
     SpeechActivityDetection.pad_onset := Instantiated 0;
     SpeechActivityDetection.pad_offset := Instantiated 0;
     SpeechActivityDetection._binarize :=
       Some {| Binarize.onset := Instantiated 0.5;
               Binarize.offset := Instantiated 0.5;
               Binarize.min_duration_on := Instantiated 0;
               Binarize.min_duration_off := Instantiated 2;
               Binarize.pad_onset := Instantiated 0;
               Binarize.pad_offset := Instantiated 0 |};
     SpeechActivityDetection.log_scale_ := None |}.

(** ** What an exception says *)

(** The text of an exception, [str(e)]. *)
Definition message (e : exn) : string :=
  match e with
  | NameError name => "name '" ++ name ++ "' is not defined"
  | AttributeError attr =>
      "'SpeechActivityDetection' object has no attribute '" ++ attr ++ "'"
  | KeyError key => "'" ++ key ++ "'"
  | ValueError msg => msg
  | IndexError msg => msg
  | TypeError msg => msg
  | Raised _ msg => msg
  end%string.

(** [needle in hay] *)
Fixpoint contains (needle hay : string) : bool :=
  String.prefix needle hay
  || match hay with
     | EmptyString => false
     | String _ hay' => contains needle hay'
     end.

(** The exception identifies the file: its identifier appears in the text. *)
Definition mentions (e : exn) (uri : string) : bool := contains uri (message e).

(** None of the three sources of scores yields a curve for the file: none
    is attached, and the store and the model, where the instance has
    them, return [None]. *)
Definition yields_nothing (self : SpeechActivityDetection.t) (f : File.t) : Prop :=
  File.sad_scores f = None
  /\ (forall store, SpeechActivityDetection._precomputed self = Some store ->
                    store f = inr None)
  /\ (forall model, SpeechActivityDetection._pretrained self = Some model ->
                    model f = inr None).

(** The attribute that a call reads to find the source it consults. *)
Definition source_attribute (self : SpeechActivityDetection.t) : string :=
  match SpeechActivityDetection.precomputed self with
  | Some _ => "_precomputed"
  | None => "_pretrained"
  end.

(** The exception for a file with no scores: the message reads the key
    ['uri'] of the file. *)
Definition no_scores_error (f : File.t) : exn :=
  match File.uri f with
  | Some uri => unavailable uri
  | None => KeyError "uri"
  end.

(** ** Sequences of method calls, and what a call depends on *)

(** The methods of an instance that a caller invokes after building it. *)
Inductive Method : Type :=
| Call (current_file : File.t)
| Initialize.

Definition invoke `{Extern} (m : Method) (w : SpeechActivityDetection.World)
  : SpeechActivityDetection.World :=
  match m with
  | Call current_file => snd (SpeechActivityDetection.__call__ current_file w)
  | Initialize => snd (SpeechActivityDetection.initialize w)
  end.

(** The state after a sequence of method calls, exceptions caught. *)
Definition session `{Extern} (ms : list Method) (w : SpeechActivityDetection.World)
  : SpeechActivityDetection.World :=
  fold_left (fun w m => invoke m w) ms w.

(** Two instances with the same sources, binarizer and flag: they may
    differ in the hyper-parameter attributes and in [pretrained]. *)
Definition same_wiring (a b : SpeechActivityDetection.t) : Prop :=
  SpeechActivityDetection.precomputed a = SpeechActivityDetection.precomputed b
  /\ SpeechActivityDetection._precomputed a = SpeechActivityDetection._precomputed b
  /\ SpeechActivityDetection._pretrained a = SpeechActivityDetection._pretrained b
  /\ SpeechActivityDetection._binarize a = SpeechActivityDetection._binarize b
  /\ SpeechActivityDetection.log_scale_ a = SpeechActivityDetection.log_scale_ b.

(** A computation whose outcome, and whose effect on the wiring, depend on
    the wiring of the instance only: not on the log, not on the
    hyper-parameter attributes. *)
Definition reads_wiring_only {A} (m : M SpeechActivityDetection.World A) : Prop :=
  forall w w',
    same_wiring (SpeechActivityDetection.self w) (SpeechActivityDetection.self w') ->
    fst (m w) = fst (m w')
    /\ same_wiring (SpeechActivityDetection.self (snd (m w)))
                   (SpeechActivityDetection.self (snd (m w'))).

(** The state [w] after assigning the six hyper-parameter attributes. *)
Definition with_hyper (h : Binarize.t) (w : SpeechActivityDetection.World)
  : SpeechActivityDetection.World :=
  let self := SpeechActivityDetection.self w in
  {| SpeechActivityDetection.self :=
       {| SpeechActivityDetection.precomputed := SpeechActivityDetection.precomputed self;
          SpeechActivityDetection._precomputed := SpeechActivityDetection._precomputed self;
          SpeechActivityDetection.pretrained := SpeechActivityDetection.pretrained self;
          SpeechActivityDetection._pretrained := SpeechActivityDetection._pretrained self;
          SpeechActivityDetection.onset := Binarize.onset h;
          SpeechActivityDetection.offset := Binarize.offset h;
          SpeechActivityDetection.min_duration_on := Binarize.min_duration_on h;
          SpeechActivityDetection.min_duration_off := Binarize.min_duration_off h;
          SpeechActivityDetection.pad_onset := Binarize.pad_onset h;
          SpeechActivityDetection.pad_offset := Binarize.pad_offset h;
          SpeechActivityDetection._binarize := SpeechActivityDetection._binarize self;
          SpeechActivityDetection.log_scale_ := SpeechActivityDetection.log_scale_ self |};
     SpeechActivityDetection.log := SpeechActivityDetection.log w |}.

(** The hyper-parameter attributes of an instance, as [initialize] reads
    them. *)
Definition hyper_of (self : SpeechActivityDetection.t) : Binarize.t :=
  {| Binarize.onset := SpeechActivityDetection.onset self;
     Binarize.offset := SpeechActivityDetection.offset self;
     Binarize.min_duration_on := SpeechActivityDetection.min_duration_on self;
     Binarize.min_duration_off := SpeechActivityDetection.min_duration_off self;
     Binarize.pad_onset := SpeechActivityDetection.pad_onset self;
     Binarize.pad_offset := SpeechActivityDetection.pad_offset self |}.

(** A two-dimensional array with every row of [c] values. *)
Definition rectangular (c : nat) (rows : list (list float)) : Prop :=
  Forall (fun r => length r = c) rows.

(** [a.shape[0]], the number of samples. *)
Definition shape0 (a : ndarray) : nat :=
  match a with
  | Array1 xs => length xs
  | Array2 _ rows => length rows
  end.

(** A file for which an instance finds no scores: none attached, and none
    from the source consulted, if there is one. *)
Definition unresolved (self : SpeechActivityDetection.t) (f : File.t) : Prop :=
  File.sad_scores f = None
  /\ match consulted self with
     | Some source => forall s, source f <> inr (Some s)
     | None => True
     end.

(** The location of precomputed scores that the constructor keeps. *)
Definition kept_location (precomputed scores : option Path) : option Path :=
  match scores with
  | Some _ => scores
  | None => precomputed
  end.

(** The warnings of the constructor. *)
Definition constructor_warnings (scores : option Path) : list Event :=
  match scores with
  | Some _ =>
      [Warn (dquote ++ "scores" ++ dquote ++ " is being deprecated in favor of "
             ++ dquote ++ "precomputed" ++ dquote ++ ".")%string]
  | None => []
  end.

(** The curve that a call on the file [f] in the state [w] hands to the
    binarizer: the scores found, put on a linear scale, then reduced to
    the probability of speech. *)
Definition handed `{Extern}
    (w : SpeechActivityDetection.World) (f : File.t)
    (sp : SlidingWindowFeature.t) : Prop :=
  exists s w1 d w2,
    SpeechActivityDetection.raw_scores f w = (inr s, w1)
    /\ SpeechActivityDetection.linear_scores s w1 = (inr d, w2)
    /\ SpeechActivityDetection.speech_vs_non_speech
         d (SlidingWindowFeature.sliding_window s) w2 = (inr sp, w2).

(** The ways a call on the file [f] in the state [w] fails with [e]:
    while it looks for the scores; on scores in a one-dimensional array;
    or, with a curve to binarize, on the binarizer or on the ['uri']. *)
Definition call_failure `{Extern}
    (w : SpeechActivityDetection.World) (f : File.t) (e : exn) : Prop :=
  (File.sad_scores f = None
   /\ match consulted (SpeechActivityDetection.self w) with
      | None => e = AttributeError (source_attribute (SpeechActivityDetection.self w))
      | Some source =>
          source f = inl e
          \/ (source f = inr None /\ e = no_scores_error f)
      end)
  \/ (exists s xs,
        fst (SpeechActivityDetection.raw_scores f w) = inr s
        /\ SlidingWindowFeature.data s = Array1 xs
        /\ e = IndexError "tuple index out of range")
  \/ (exists sp,
        handed w f sp
        /\ match SpeechActivityDetection._binarize (SpeechActivityDetection.self w) with
           | None => e = AttributeError "_binarize"
           | Some b =>
               Binarize_apply b sp = inl e
               \/ (exists tl, Binarize_apply b sp = inr tl
                              /\ File.uri f = None /\ e = KeyError "uri")
           end).

(** * Properties *)

Import SpeechActivityDetection.

(** ** The monad *)

Lemma bind_inr {S A B} (m : M S A) (k : A -> M S B) (s : S) a s' :
  m s = (inr a, s') -> bind m k s = k a s'.
Proof. intros Hm. unfold bind. rewrite Hm. reflexivity. Qed.

Lemma bind_inl {S A B} (m : M S A) (k : A -> M S B) s e s' :
  m s = (inl e, s') -> bind m k s = (inl e, s').
Proof. intros Hm. unfold bind. rewrite Hm. reflexivity. Qed.

(** ** Arrays *)

Lemma flat_map_array f a : flat (map_array f a) = map f (flat a).
Proof.
  destruct a as [xs | c rows]; simpl; [reflexivity |].
  induction rows as [| r rows IH]; simpl; [reflexivity |].
  rewrite map_app, IH. reflexivity.
Qed.

(** *** Sums *)

Lemma Forall_first {A} (P : A -> Prop) n : forall l,
  Forall P l -> Forall P (firstn n l).
Proof.
  induction n as [| n IH]; intros l Hl; simpl; [constructor |].
  destruct Hl as [| x l Hx Hl]; constructor; [exact Hx | apply IH; exact Hl].
Qed.

Lemma Forall_skip {A} (P : A -> Prop) n : forall l,
  Forall P l -> Forall P (skipn n l).
Proof.
  induction n as [| n IH]; intros l Hl; simpl; [exact Hl |].
  destruct Hl as [| x l Hx Hl]; [constructor | apply IH; exact Hl].
Qed.

Section SummationOfZeros.

Variable T : Type.
Variable add : T -> T -> T.
Variable zero : T.
Hypothesis add_zero_zero : add zero zero = zero.

Lemma accumulate_zeros xs : zeros zero xs -> accumulate add zero xs = zero.
Proof.
  unfold accumulate. induction 1 as [| x xs Hx _ IH]; simpl; [reflexivity |].
  subst x. rewrite add_zero_zero. exact IH.
Qed.

Lemma unrolled_zeros n : forall xs,
  length xs <= n -> zeros zero xs ->
  exists tail,
    unrolled add (zero, zero, zero, zero, zero, zero, zero, zero) xs
    = ((zero, zero, zero, zero, zero, zero, zero, zero), tail)
    /\ zeros zero tail.
Proof.
  induction n as [| n IH]; intros xs Hlen Hz.
  - destruct xs; [| simpl in Hlen; lia]. exists []. split; [reflexivity | exact Hz].
  - destruct xs as [| a0 [| a1 [| a2 [| a3 [| a4 [| a5 [| a6 [| a7 rest]]]]]]]];
      try (eexists; split; [reflexivity | exact Hz]).
    repeat match goal with
           | Hz : zeros _ (_ :: _) |- _ => inversion Hz; subst; clear Hz
           | Hz : Forall _ (_ :: _) |- _ => inversion Hz; subst; clear Hz
           end.
    simpl. rewrite !add_zero_zero. apply IH; [simpl in Hlen; lia | assumption].
Qed.

Lemma block_sum_zeros xs : zeros zero xs -> block_sum add zero xs = zero.
Proof.
  intros Hz. unfold block_sum.
  destruct xs as [| a0 [| a1 [| a2 [| a3 [| a4 [| a5 [| a6 [| a7 rest]]]]]]]];
    try (apply accumulate_zeros; exact Hz).
  repeat match goal with
         | Hz : zeros _ (_ :: _) |- _ => inversion Hz; subst; clear Hz
         | Hz : Forall _ (_ :: _) |- _ => inversion Hz; subst; clear Hz
         end.
  destruct (@unrolled_zeros (length rest) rest (le_n _)) as (tail & Hu & Htail);
    [assumption |].
  rewrite Hu, !add_zero_zero. apply accumulate_zeros. exact Htail.
Qed.

Lemma pairwise_sum_zeros fuel : forall xs,
  zeros zero xs -> pairwise_sum add zero fuel xs = zero.
Proof.
  induction fuel as [| fuel IH]; intros xs Hz; simpl.
  - apply block_sum_zeros. exact Hz.
  - destruct (Nat.leb (length xs) PW_BLOCKSIZE); [apply block_sum_zeros; exact Hz |].
    rewrite !IH, add_zero_zero; [reflexivity | |].
    + apply Forall_skip. exact Hz.
    + apply Forall_first. exact Hz.
Qed.

Lemma np_add_reduce_zeros xs : zeros zero xs -> np_add_reduce add zero xs = zero.
Proof.
  intros Hz. unfold np_add_reduce. rewrite pairwise_sum_zeros by exact Hz.
  exact add_zero_zero.
Qed.

End SummationOfZeros.

(** On exact numbers the summation is the sum. *)
Section ExactSummation.

Local Open Scope Z_scope.

Lemma accumulate_exact zs : forall res, accumulate Z.add res zs = res + total zs.
Proof.
  unfold accumulate. induction zs as [| z zs IH]; intros res; simpl; [lia |].
  rewrite IH. lia.
Qed.

Lemma unrolled_exact n : forall zs r0 r1 r2 r3 r4 r5 r6 r7,
  (length zs <= n)%nat ->
  let '((s0, s1, s2, s3, s4, s5, s6, s7), tail) :=
    unrolled Z.add (r0, r1, r2, r3, r4, r5, r6, r7) zs in
  s0 + s1 + s2 + s3 + s4 + s5 + s6 + s7 + total tail
  = r0 + r1 + r2 + r3 + r4 + r5 + r6 + r7 + total zs.
Proof.
  induction n as [| n IH]; intros zs r0 r1 r2 r3 r4 r5 r6 r7 Hlen.
  - destruct zs; [reflexivity | simpl in Hlen; lia].
  - destruct zs as [| a0 [| a1 [| a2 [| a3 [| a4 [| a5 [| a6 [| a7 rest]]]]]]]];
      try reflexivity.
    simpl unrolled.
    specialize (IH rest (r0 + a0) (r1 + a1) (r2 + a2) (r3 + a3)
                  (r4 + a4) (r5 + a5) (r6 + a6) (r7 + a7)).
    destruct (unrolled Z.add _ rest) as [[[[[[[[s0 s1] s2] s3] s4] s5] s6] s7] tail].
    rewrite IH by (simpl in Hlen; lia). unfold total. simpl. lia.
Qed.

Lemma block_sum_exact zs : block_sum Z.add 0 zs = total zs.
Proof.
  unfold block_sum.
  destruct zs as [| a0 [| a1 [| a2 [| a3 [| a4 [| a5 [| a6 [| a7 rest]]]]]]]];
    try (rewrite accumulate_exact; lia).
  pose proof (@unrolled_exact (length rest) rest a0 a1 a2 a3 a4 a5 a6 a7 (le_n _)) as Hu.
  destruct (unrolled Z.add _ rest) as [[[[[[[[s0 s1] s2] s3] s4] s5] s6] s7] tail].
  rewrite accumulate_exact. unfold total in *. simpl. lia.
Qed.

Lemma total_app xs ys : total (xs ++ ys) = total xs + total ys.
Proof. unfold total. induction xs as [| x xs IH]; simpl; lia. Qed.

Lemma pairwise_sum_exact fuel : forall zs, pairwise_sum Z.add 0 fuel zs = total zs.
Proof.
  induction fuel as [| fuel IH]; intros zs; simpl; [apply block_sum_exact |].
  destruct (Nat.leb (length zs) PW_BLOCKSIZE); [apply block_sum_exact |].
  rewrite !IH, <- total_app, firstn_skipn. reflexivity.
Qed.

Lemma nansum_exact (missing : Z -> bool) zs :
  nansum Z.add 0 missing zs = total (filter (fun z => negb (missing z)) zs).
Proof.
  unfold nansum, np_add_reduce. rewrite pairwise_sum_exact.
  induction zs as [| z zs IH]; simpl; [reflexivity |].
  destruct (missing z); simpl; unfold total in *; simpl; lia.
Qed.

End ExactSummation.

(** The recursion of the summation never runs out of fuel: any fuel from
    the length of the list on gives the same sum. *)
Lemma pairwise_sum_fuel {T} (add : T -> T -> T) (zero : T) fuel : forall fuel' xs,
  length xs <= fuel -> length xs <= fuel' ->
  pairwise_sum add zero fuel xs = pairwise_sum add zero fuel' xs.
Proof.
  induction fuel as [| fuel IH]; intros fuel' xs Hlen Hlen'.
  - destruct xs; [| simpl in Hlen; lia]. destruct fuel'; reflexivity.
  - destruct fuel' as [| fuel'].
    + destruct xs; [reflexivity | simpl in Hlen'; lia].
    + cbn [pairwise_sum]. destruct (Nat.leb (length xs) PW_BLOCKSIZE) eqn:Hblock; [reflexivity |].
      apply Nat.leb_gt in Hblock. unfold PW_BLOCKSIZE in Hblock.
      set (n2 := (length xs / 2 - (length xs / 2) mod 8)%nat).
      assert (Hn2 : 0 < n2 < length xs).
      { unfold n2.
        pose proof (Nat.mod_upper_bound (length xs / 2) 8).
        pose proof (Nat.div_lt (length xs) 2).
        assert (64 <= length xs / 2) by (apply Nat.div_le_lower_bound; lia).
        lia. }
      assert (H1 : length (firstn n2 xs) = n2) by (apply firstn_length_le; lia).
      assert (H2 : length (skipn n2 xs) = length xs - n2) by apply length_skipn.
      rewrite (IH fuel' (firstn n2 xs)) by lia.
      rewrite (IH fuel' (skipn n2 xs)) by lia.
      reflexivity.
Qed.

Lemma np_sum_zeros (xs : list float) :
  np_sum (map (fun _ => 0%float) xs) = 0%float.
Proof.
  unfold np_sum. apply np_add_reduce_zeros; [reflexivity |].
  unfold zeros. induction xs as [| x xs IH]; simpl; constructor;
    [reflexivity | exact IH].
Qed.

Lemma replace_all_nan (xs : list float) :
  Forall (fun x => PrimFloat.is_nan x = true) xs ->
  map (fun x => if PrimFloat.is_nan x then 0%float else x) xs
  = map (fun _ => 0%float) xs.
Proof.
  induction 1 as [| x xs Hx _ IH]; simpl; [reflexivity |].
  rewrite Hx, IH. reflexivity.
Qed.

Lemma count_all_nan (xs : list float) :
  Forall (fun x => PrimFloat.is_nan x = true) xs ->
  filter (fun x => negb (PrimFloat.is_nan x)) xs = [].
Proof.
  induction 1 as [| x xs Hx _ IH]; simpl; [reflexivity |].
  rewrite Hx. simpl. exact IH.
Qed.

(** The mean of a curve with no value but NaN is NaN. *)
Lemma nanmean_all_nan a :
  Forall (fun x => PrimFloat.is_nan x = true) (flat a) -> nanmean a = nan.
Proof.
  intros Hnan. unfold nanmean, nansum, count_non_nan.
  rewrite (replace_all_nan Hnan), (count_all_nan Hnan).
  change (np_add_reduce PrimFloat.add 0%float (map (fun _ => 0%float) (flat a)))
    with (np_sum (map (fun _ => 0%float) (flat a))).
  rewrite np_sum_zeros. reflexivity.
Qed.

(** A mean that is zero or more is not below zero. *)
Lemma non_negative_not_negative (m : float) :
  PrimFloat.leb 0 m = true -> PrimFloat.ltb m 0 = false.
Proof.
  rewrite FloatAxioms.leb_spec, FloatAxioms.ltb_spec. unfold SFleb, SFltb.
  change (Prim2SF 0) with (S754_zero false).
  destruct (Prim2SF m) as [s | s | | s mm e]; simpl;
    try destruct s; simpl; congruence.
Qed.

(** ** The order of floats *)

Lemma SFcompare_order f1 f2 c : SFcompare f1 f2 = Some c <-> order f1 f2 c.
Proof.
  unfold order.
  destruct f1 as [s1 | s1 | | s1 m1 e1], f2 as [s2 | s2 | | s2 m2 e2];
    try destruct s1; try destruct s2; simpl;
    try (split; [intros Hc; inversion Hc; subst; simpl; lia
                | destruct c; simpl; intros Hc; (reflexivity || lia)]);
    try (split; [discriminate | tauto]).
  - (* both negative *)
    change (Pos.compare_cont Eq m1 m2) with (Pos.compare m1 m2).
    destruct (Z.compare_spec e1 e2) as [He | He | He];
      [destruct (Pos.compare_spec m1 m2) as [Hm | Hm | Hm] |..];
      simpl; (split; [intros Hc; inversion Hc; subst; simpl; lia
                     | destruct c; simpl; intros Hc; (reflexivity || lia)]).
  - change (Pos.compare_cont Eq m1 m2) with (Pos.compare m1 m2).
    destruct (Z.compare_spec e1 e2) as [He | He | He];
      [destruct (Pos.compare_spec m1 m2) as [Hm | Hm | Hm] |..];
      simpl; (split; [intros Hc; inversion Hc; subst; simpl; lia
                     | destruct c; simpl; intros Hc; (reflexivity || lia)]).
Qed.

Lemma ltb_iff x y : PrimFloat.ltb x y = true <-> olt (fkey x) (fkey y).
Proof.
  rewrite FloatAxioms.ltb_spec. unfold SFltb, olt, fkey.
  pose proof (SFcompare_order (Prim2SF x) (Prim2SF y)) as Ho. unfold order in Ho.
  destruct (SFcompare (Prim2SF x) (Prim2SF y)) as [[| |] |].
  - split; [discriminate |]. intros Hlt.
    pose proof (proj1 (Ho Eq) eq_refl) as He.
    destruct (key (Prim2SF x)) as [[[a1 b1] c1] |], (key (Prim2SF y)) as [[[a2 b2] c2] |];
      simpl in *; try tauto; lia.
  - split; [intros _ | reflexivity]. exact (proj1 (Ho Lt) eq_refl).
  - split; [discriminate |]. intros Hlt.
    pose proof (proj1 (Ho Gt) eq_refl) as He.
    destruct (key (Prim2SF x)) as [[[a1 b1] c1] |], (key (Prim2SF y)) as [[[a2 b2] c2] |];
      simpl in *; try tauto; lia.
  - split; [discriminate |]. intros Hlt.
    pose proof (proj2 (Ho Lt)) as He.
    destruct (key (Prim2SF x)) as [[[a1 b1] c1] |], (key (Prim2SF y)) as [[[a2 b2] c2] |];
      simpl in *; try tauto; specialize (He Hlt); discriminate.
Qed.

Lemma eqb_iff x y : PrimFloat.eqb x y = true <-> oeq (fkey x) (fkey y).
Proof.
  rewrite FloatAxioms.eqb_spec. unfold SFeqb, oeq, fkey.
  pose proof (SFcompare_order (Prim2SF x) (Prim2SF y)) as Ho. unfold order in Ho.
  destruct (SFcompare (Prim2SF x) (Prim2SF y)) as [[| |] |].
  - split; [intros _ | reflexivity]. exact (proj1 (Ho Eq) eq_refl).
  - split; [discriminate |]. intros Hlt.
    pose proof (proj1 (Ho Lt) eq_refl) as He.
    destruct (key (Prim2SF x)) as [[[a1 b1] c1] |], (key (Prim2SF y)) as [[[a2 b2] c2] |];
      simpl in *; try tauto; lia.
  - split; [discriminate |]. intros Hlt.
    pose proof (proj1 (Ho Gt) eq_refl) as He.
    destruct (key (Prim2SF x)) as [[[a1 b1] c1] |], (key (Prim2SF y)) as [[[a2 b2] c2] |];
      simpl in *; try tauto; lia.
  - split; [discriminate |]. intros Hlt.
    pose proof (proj2 (Ho Eq)) as He.
    destruct (key (Prim2SF x)) as [[[a1 b1] c1] |], (key (Prim2SF y)) as [[[a2 b2] c2] |];
      simpl in *; try tauto; specialize (He Hlt); discriminate.
Qed.

Lemma leb_iff x y :
  PrimFloat.leb x y = true <-> olt (fkey x) (fkey y) \/ oeq (fkey x) (fkey y).
Proof.
  rewrite <- ltb_iff, <- eqb_iff.
  rewrite FloatAxioms.leb_spec, FloatAxioms.ltb_spec, FloatAxioms.eqb_spec.
  unfold SFleb, SFltb, SFeqb.
  destruct (SFcompare (Prim2SF x) (Prim2SF y)) as [[| |] |];
    intuition discriminate.
Qed.

Lemma is_nan_iff x : PrimFloat.is_nan x = false <-> fkey x <> None.
Proof.
  unfold PrimFloat.is_nan. rewrite negb_false_iff, eqb_iff. unfold oeq.
  destruct (fkey x) as [[[a b] c] |]; simpl; [| tauto].
  split; [discriminate | lia].
Qed.

(** Comparisons of floats, as statements on keys. *)
Ltac float_order :=
  repeat match goal with
         | H : PrimFloat.ltb _ _ = true |- _ => apply ltb_iff in H
         | H : PrimFloat.leb _ _ = true |- _ => apply leb_iff in H
         | H : PrimFloat.eqb _ _ = true |- _ => apply eqb_iff in H
         | H : PrimFloat.is_nan _ = false |- _ => apply is_nan_iff in H
         | H : PrimFloat.ltb _ _ = false |- _ =>
             apply not_true_iff_false in H; rewrite ltb_iff in H
         | H : PrimFloat.leb _ _ = false |- _ =>
             apply not_true_iff_false in H; rewrite leb_iff in H
         | H : PrimFloat.eqb _ _ = false |- _ =>
             apply not_true_iff_false in H; rewrite eqb_iff in H
         end;
  try match goal with
      | |- PrimFloat.ltb _ _ = true => apply ltb_iff
      | |- PrimFloat.leb _ _ = true => apply leb_iff
      | |- PrimFloat.eqb _ _ = true => apply eqb_iff
      | |- PrimFloat.is_nan _ = false => apply is_nan_iff
      | |- PrimFloat.ltb _ _ = false => apply not_true_iff_false; rewrite ltb_iff
      | |- PrimFloat.leb _ _ = false => apply not_true_iff_false; rewrite leb_iff
      end;
  unfold olt, oeq in *;
  repeat match goal with
         | |- context [fkey ?x] => destruct (fkey x) as [[[? ?] ?] |]
         | H : context [fkey ?x] |- _ => destruct (fkey x) as [[[? ?] ?] |]
         end;
  simpl in *; try tauto; try congruence; try lia.

Lemma leb_trans a b c :
  PrimFloat.leb a b = true -> PrimFloat.leb b c = true -> PrimFloat.leb a c = true.
Proof. intros H1 H2. float_order. Qed.

Lemma ltb_leb_trans a b c :
  PrimFloat.ltb a b = true -> PrimFloat.leb b c = true -> PrimFloat.ltb a c = true.
Proof. intros H1 H2. float_order. Qed.

Lemma leb_total a b :
  PrimFloat.is_nan a = false -> PrimFloat.is_nan b = false ->
  PrimFloat.leb a b = false -> PrimFloat.ltb b a = true.
Proof. intros H1 H2 H3. float_order. Qed.

Lemma ltb_total a b :
  PrimFloat.is_nan a = false -> PrimFloat.is_nan b = false ->
  PrimFloat.ltb a b = false -> PrimFloat.leb b a = true.
Proof. intros H1 H2 H3. float_order. Qed.

(** ** Timelines *)

Lemma fmax_number a b :
  PrimFloat.is_nan a = false -> PrimFloat.is_nan b = false ->
  PrimFloat.is_nan (fmax a b) = false.
Proof. intros Ha Hb. unfold fmax. destruct (PrimFloat.leb a b); assumption. Qed.

Lemma ltb_fmax t a b :
  PrimFloat.is_nan a = false -> PrimFloat.is_nan b = false ->
  PrimFloat.ltb t (fmax a b) = true
  <-> PrimFloat.ltb t a = true \/ PrimFloat.ltb t b = true.
Proof.
  intros Ha Hb. unfold fmax.
  destruct (PrimFloat.leb a b) eqn:Hab.
  - split; [intros Ht; right; exact Ht |].
    intros [Ht | Ht]; [exact (@ltb_leb_trans _ _ _ Ht Hab) | exact Ht].
  - pose proof (@leb_total _ _ Ha Hb Hab) as Hba.
    split; [intros Ht; left; exact Ht |].
    intros [Ht | Ht]; [exact Ht |].
    clear Hab. float_order.
Qed.

Lemma covers_cons s l t : covers (s :: l) t <-> instant_in s t \/ covers l t.
Proof.
  unfold covers. split.
  - intros (x & [Hx | Hx] & Hin); [subst x; left; exact Hin | right; exists x; tauto].
  - intros [Hin | (x & Hx & Hin)]; [exists s | exists x]; simpl; tauto.
Qed.

Lemma covers_nil t : ~ covers [] t.
Proof. intros (x & [] & _). Qed.

Lemma seg_eqb_instant s x t :
  seg_eqb s x = true -> (instant_in s t <-> instant_in x t).
Proof.
  unfold seg_eqb, instant_in. intros Heq. apply andb_true_iff in Heq.
  destruct Heq as [Hs He].
  split; intros [H1 H2]; split; float_order.
Qed.

Lemma insert_segment_covers s l t :
  covers (insert_segment s l) t <-> covers (s :: l) t.
Proof.
  induction l as [| x l IH]; simpl; [tauto |].
  destruct (seg_eqb s x) eqn:Heq.
  - rewrite (covers_cons s), (covers_cons x), (@seg_eqb_instant s x t Heq). tauto.
  - destruct (seg_ltb s x); [tauto |].
    rewrite (covers_cons x), IH, !covers_cons. tauto.
Qed.

Lemma insert_segment_timed s l :
  timed s -> Forall timed l -> Forall timed (insert_segment s l).
Proof.
  intros Hs Hl. induction Hl as [| x l Hx Hl IH]; simpl.
  - constructor; [exact Hs | constructor].
  - destruct (seg_eqb s x); [constructor; assumption |].
    destruct (seg_ltb s x); constructor; try assumption.
    constructor; assumption.
Qed.

Lemma insert_segment_hd x s l :
  starts_before x s -> HdRel starts_before x l ->
  HdRel starts_before x (insert_segment s l).
Proof.
  intros Hxs Hxl. destruct l as [| y l]; simpl; [constructor; exact Hxs |].
  destruct (seg_eqb s y); [exact Hxl |].
  destruct (seg_ltb s y); [constructor; exact Hxs |].
  inversion Hxl; subst. constructor. assumption.
Qed.

Lemma insert_segment_sorted s l :
  timed s -> Forall timed l ->
  Sorted starts_before l -> Sorted starts_before (insert_segment s l).
Proof.
  intros Hs Hl Hsorted. induction Hsorted as [| x l Hsorted IH Hhd]; simpl.
  - constructor; constructor.
  - inversion Hl as [| ? ? Hx Hl']; subst.
    destruct (seg_eqb s x) eqn:Heq; [constructor; assumption |].
    destruct (seg_ltb s x) eqn:Hlt.
    + constructor; [constructor; assumption |].
      constructor. unfold starts_before. unfold seg_ltb in Hlt.
      apply orb_true_iff in Hlt. destruct Hlt as [Hlt | Hlt].
      * float_order.
      * apply andb_true_iff in Hlt. destruct Hlt as [Hlt _]. float_order.
    + constructor; [apply IH; exact Hl' |].
      apply insert_segment_hd; [| exact Hhd].
      unfold starts_before. unfold seg_ltb in Hlt.
      apply orb_false_iff in Hlt. destruct Hlt as [Hlt _].
      destruct Hs as [Hs _], Hx as [Hx _].
      exact (@ltb_total _ _ Hs Hx Hlt).
Qed.

(** The timeline of an annotation: its segments, sorted. *)
Lemma sorted_insertions xs acc :
  Forall timed xs -> Forall timed acc -> Sorted starts_before acc ->
  let tl := fold_left (fun l s => insert_segment s l) xs acc in
  Forall timed tl /\ Sorted starts_before tl
  /\ forall t, covers tl t <-> covers xs t \/ covers acc t.
Proof.
  revert acc. induction xs as [| x xs IH]; intros acc Hxs Hacc Hsorted; simpl.
  - split; [exact Hacc | split; [exact Hsorted |]].
    intros t. pose proof (@covers_nil t). tauto.
  - inversion Hxs as [| ? ? Hx Hxs']; subst.
    destruct (IH (insert_segment x acc) Hxs'
                (@insert_segment_timed _ _ Hx Hacc)
                (@insert_segment_sorted _ _ Hx Hacc Hsorted)) as (Ht & Hs & Hc).
    split; [exact Ht | split; [exact Hs |]].
    intros t. rewrite Hc, insert_segment_covers, !covers_cons. tauto.
Qed.

Lemma get_timeline_sorted (a : Annotation.t) :
  Forall timed (map fst (Annotation.tracks a)) ->
  Forall timed (Timeline.segments (get_timeline a))
  /\ Sorted starts_before (Timeline.segments (get_timeline a))
  /\ forall t, covers (Timeline.segments (get_timeline a)) t
               <-> covers (map fst (Annotation.tracks a)) t.
Proof.
  intros Ha.
  destruct (@sorted_insertions (map fst (Annotation.tracks a)) [] Ha
              (Forall_nil _) (Sorted_nil _)) as (Ht & Hs & Hc).
  split; [exact Ht | split; [exact Hs |]].
  intros t. simpl. rewrite Hc. pose proof (@covers_nil t). tauto.
Qed.

(** The union of two segments in time order with no gap between them. *)
Lemma union_instant cur s t :
  timed cur -> timed s -> starts_before cur s ->
  PrimFloat.leb (Segment.start s) (Segment.end_ cur) = true ->
  instant_in {| Segment.start := Segment.start cur;
                Segment.end_ := fmax (Segment.end_ cur) (Segment.end_ s) |} t
  <-> instant_in cur t \/ instant_in s t.
Proof.
  intros [Hc1 Hc2] [Hs1 Hs2] Hord Hgap. unfold instant_in, starts_before in *. simpl.
  rewrite (@ltb_fmax t _ _ Hc2 Hs2).
  split.
  - intros [Hst [Ht | Ht]]; [left; tauto |].
    destruct (PrimFloat.ltb t (Segment.end_ cur)) eqn:Hcur; [left; tauto |].
    right. split; [| exact Ht].
    assert (Htn : PrimFloat.is_nan t = false) by (clear - Hst; float_order).
    pose proof (@ltb_total _ _ Htn Hc2 Hcur) as Hle.
    exact (@leb_trans _ _ _ Hgap Hle).
  - intros [[Hst Ht] | [Hst Ht]]; [tauto |].
    split; [exact (@leb_trans _ _ _ Hord Hst) | tauto].
Qed.

Lemma support_from_covers l : forall cur,
  timed cur -> Forall timed l -> Sorted starts_before (cur :: l) ->
  Forall timed (support_from cur l)
  /\ forall t, covers (support_from cur l) t <-> covers (cur :: l) t.
Proof.
  induction l as [| s l IH]; intros cur Hcur Hl Hsorted; simpl.
  - split; [constructor; [exact Hcur | constructor] | tauto].
  - inversion Hl as [| ? ? Hs Hl']; subst.
    inversion Hsorted as [| ? ? Hsorted' Hhd]; subst.
    inversion Hhd as [| ? ? Hord]; subst.
    inversion Hsorted' as [| ? ? Hsorted'' Hhd']; subst.
    destruct (PrimFloat.leb (Segment.start s) (Segment.end_ cur)) eqn:Hgap.
    + set (u := {| Segment.start := Segment.start cur;
                   Segment.end_ := fmax (Segment.end_ cur) (Segment.end_ s) |}).
      assert (Hu : timed u).
      { destruct Hcur as [Hc1 Hc2], Hs as [Hs1 Hs2].
        split; [exact Hc1 | exact (@fmax_number _ _ Hc2 Hs2)]. }
      assert (Hsu : Sorted starts_before (u :: l)).
      { constructor; [exact Hsorted'' |].
        destruct Hhd' as [| y l' Hy]; constructor.
        unfold starts_before in *. simpl. exact (@leb_trans _ _ _ Hord Hy). }
      destruct (IH u Hu Hl' Hsu) as [Ht Hc].
      split; [exact Ht |].
      intros t. rewrite Hc, !covers_cons. unfold u.
      rewrite (@union_instant cur s t Hcur Hs Hord Hgap). tauto.
    + destruct (IH s Hs Hl' Hsorted') as [Ht Hc].
      split; [constructor; assumption |].
      intros t. rewrite covers_cons, Hc, !covers_cons. tauto.
Qed.

Lemma support_from_start l : forall cur,
  exists e rest,
    support_from cur l = {| Segment.start := Segment.start cur; Segment.end_ := e |} :: rest.
Proof.
  induction l as [| s l IH]; intros cur; simpl.
  - destruct cur as [a b]. exists b, []. reflexivity.
  - destruct (PrimFloat.leb (Segment.start s) (Segment.end_ cur)).
    + destruct (IH {| Segment.start := Segment.start cur;
                      Segment.end_ := fmax (Segment.end_ cur) (Segment.end_ s) |})
        as (e & rest & Heq).
      exists e, rest. exact Heq.
    + destruct cur as [a b]. exists b, (support_from s l). reflexivity.
Qed.

(** The regions of a support are apart: each ends before the next starts. *)
Lemma support_from_apart l : forall cur,
  timed cur -> Forall timed l -> Sorted apart (support_from cur l).
Proof.
  induction l as [| s l IH]; intros cur Hcur Hl; simpl.
  - constructor; constructor.
  - inversion Hl as [| ? ? Hs Hl']; subst.
    destruct (PrimFloat.leb (Segment.start s) (Segment.end_ cur)) eqn:Hgap.
    + apply IH; [| exact Hl'].
      destruct Hcur as [Hc1 Hc2], Hs as [Hs1 Hs2].
      split; [exact Hc1 | exact (@fmax_number _ _ Hc2 Hs2)].
    + constructor; [apply IH; assumption |].
      destruct (support_from_start l s) as (e & rest & Heq). rewrite Heq.
      constructor. unfold apart. simpl.
      destruct Hcur as [_ Hc2], Hs as [Hs1 _].
      exact (@leb_total _ _ Hs1 Hc2 Hgap).
Qed.

Lemma map_fst_combine {A B} (l : list A) (l' : list B) :
  length l = length l' -> map fst (combine l l') = l.
Proof.
  revert l'. induction l as [| x l IH]; intros [| y l'] Hlen; simpl in *;
    try reflexivity; try discriminate.
  rewrite IH by lia. reflexivity.
Qed.

Lemma to_annotation_segments tl modality :
  map fst (Annotation.tracks (to_annotation tl modality)) = Timeline.segments tl.
Proof.
  unfold to_annotation. simpl. apply map_fst_combine.
  rewrite length_map, length_seq. reflexivity.
Qed.

(** ** The stages of a call and the state *)

Lemma raw_scores_self (f : File.t) (w : World) :
  self (snd (raw_scores f w)) = self w.
Proof.
  unfold raw_scores, bind, get_self.
  destruct (File.sad_scores f) as [s |]; simpl; [reflexivity |].
  destruct (precomputed (self w)) as [p |].
  - destruct (_precomputed (self w)) as [store |]; simpl; [| reflexivity].
    unfold lift. destruct (store f) as [e | [s |]]; simpl; try reflexivity.
    destruct (File.uri f); reflexivity.
  - destruct (_pretrained (self w)) as [model |]; simpl; [| reflexivity].
    unfold lift. destruct (model f) as [e | [s |]]; simpl; try reflexivity.
    destruct (File.uri f); reflexivity.
Qed.

Lemma linear_scores_first `{Extern} (s : SlidingWindowFeature.t) (w : World) :
  log_scale_ (self w) = None ->
  linear_scores s w =
    let is_log := PrimFloat.ltb (nanmean (SlidingWindowFeature.data s)) 0 in
    (inr (if is_log then map_array np_exp (SlidingWindowFeature.data s)
          else SlidingWindowFeature.data s),
     with_log_scale_ is_log w).
Proof.
  intros Hnone. unfold linear_scores, bind, get_self. rewrite Hnone.
  destruct (PrimFloat.ltb (nanmean (SlidingWindowFeature.data s)) 0); reflexivity.
Qed.

Lemma linear_scores_cached `{Extern} (s : SlidingWindowFeature.t) (w : World) b :
  log_scale_ (self w) = Some b ->
  linear_scores s w =
    (inr (if b then map_array np_exp (SlidingWindowFeature.data s)
          else SlidingWindowFeature.data s), w).
Proof.
  intros Hb. unfold linear_scores, bind, get_self. rewrite Hb. simpl.
  rewrite Hb. reflexivity.
Qed.

Lemma speech_vs_non_speech_state data win (w : World) :
  snd (speech_vs_non_speech data win w) = w.
Proof.
  unfold speech_vs_non_speech, bind.
  destruct data as [xs | c rows]; simpl; [reflexivity |].
  destruct (Nat.ltb 1 c); reflexivity.
Qed.

Lemma speech_regions_self `{Extern} f sp (w : World) :
  self (snd (speech_regions f sp w)) = self w.
Proof.
  unfold speech_regions, bind, get_self.
  destruct (_binarize (self w)) as [b |]; simpl; [| reflexivity].
  unfold lift. destruct (Binarize_apply b sp); simpl; [reflexivity |].
  destruct (File.uri f); reflexivity.
Qed.

(** A call leaves a flag that is set as it is. *)
Lemma call_keeps_log_scale_ `{Extern} (f : File.t) (w : World) b :
  log_scale_ (self w) = Some b ->
  log_scale_ (self (snd (__call__ f w))) = Some b.
Proof.
  intros Hb. unfold __call__, bind.
  pose proof (raw_scores_self f w) as Hraw.
  destruct (raw_scores f w) as [[e | s] w1]; simpl in Hraw; simpl.
  - rewrite Hraw. exact Hb.
  - rewrite (linear_scores_cached s w1 (b := b)) by (rewrite Hraw; exact Hb).
    pose proof (speech_vs_non_speech_state
                  (if b then map_array np_exp (SlidingWindowFeature.data s)
                   else SlidingWindowFeature.data s)
                  (SlidingWindowFeature.sliding_window s) w1) as Hsp.
    destruct (speech_vs_non_speech _ _ w1) as [[e | sp] w2]; simpl in Hsp; subst w2.
    + simpl. rewrite Hraw. exact Hb.
    + rewrite speech_regions_self, Hraw. exact Hb.
Qed.

Lemma evaluate_all_keeps_log_scale_ `{Extern} (files : list File.t) (w : World) b :
  log_scale_ (self w) = Some b ->
  log_scale_ (self (snd (evaluate_all files w))) = Some b.
Proof.
  revert w. induction files as [| f files IH]; intros w Hb; simpl; [exact Hb |].
  pose proof (call_keeps_log_scale_ f w Hb) as Hcall.
  destruct (__call__ f w) as [r w1]. simpl in Hcall.
  specialize (IH w1 Hcall).
  destruct (evaluate_all files w1) as [rs w2]. exact IH.
Qed.

(** The first curve presented decides the flag and the scale. *)
Lemma call_first `{Extern} (w w1 : World) (f : File.t) (s : SlidingWindowFeature.t) :
  log_scale_ (self w) = None ->
  raw_scores f w = (inr s, w1) ->
  let d := SlidingWindowFeature.data s in
  let is_log := PrimFloat.ltb (nanmean d) 0 in
  __call__ f w =
    (sp <- speech_vs_non_speech (if is_log then map_array np_exp d else d)
                                (SlidingWindowFeature.sliding_window s) ;;
     speech_regions f sp) (with_log_scale_ is_log w1).
Proof.
  intros Hnone Hraw d is_log.
  assert (Hnone1 : log_scale_ (self w1) = None).
  { rewrite <- Hnone, <- (raw_scores_self f w), Hraw. reflexivity. }
  unfold __call__.
  rewrite (bind_inr (raw_scores f) _ w Hraw).
  rewrite (bind_inr (linear_scores s) _ w1 (linear_scores_first s w1 Hnone1)).
  reflexivity.
Qed.

Lemma call_first_log_scale_ `{Extern}
    (w w1 : World) (f : File.t) (s : SlidingWindowFeature.t) :
  log_scale_ (self w) = None ->
  raw_scores f w = (inr s, w1) ->
  log_scale_ (self (snd (__call__ f w)))
  = Some (PrimFloat.ltb (nanmean (SlidingWindowFeature.data s)) 0).
Proof.
  intros Hnone Hraw. rewrite (call_first w f Hnone Hraw). unfold bind.
  set (b := PrimFloat.ltb (nanmean (SlidingWindowFeature.data s)) 0).
  pose proof (speech_vs_non_speech_state
                (if b then map_array np_exp (SlidingWindowFeature.data s)
                 else SlidingWindowFeature.data s)
                (SlidingWindowFeature.sliding_window s)
                (with_log_scale_ b w1)) as Hsp.
  destruct (speech_vs_non_speech _ _ (with_log_scale_ b w1)) as [[e | sp] w2];
    simpl in Hsp; subst w2.
  - reflexivity.
  - rewrite speech_regions_self. reflexivity.
Qed.

Lemma evaluate_all_first `{Extern}
    (w w1 : World) (f : File.t) (s : SlidingWindowFeature.t) (files : list File.t) :
  log_scale_ (self w) = None ->
  raw_scores f w = (inr s, w1) ->
  log_scale_ (self (snd (evaluate_all (f :: files) w)))
  = Some (PrimFloat.ltb (nanmean (SlidingWindowFeature.data s)) 0).
Proof.
  intros Hnone Hraw. simpl.
  pose proof (call_first_log_scale_ w f Hnone Hraw) as Hcall.
  destruct (__call__ f w) as [r w2]. simpl in Hcall.
  pose proof (evaluate_all_keeps_log_scale_ files w2 Hcall) as Hall.
  destruct (evaluate_all files w2) as [rs w3]. exact Hall.
Qed.

(** ** The log-scale heuristic *)

(** C1. On a call that finds the flag [log_scale_] not set (the first
    evaluation of a curve by the instance), with [s] the curve presented
    and [mean] the mean of the values of [s] that are not NaN, as
    [np.nanmean] computes it (the NaNs replaced by zero, the values added
    in numpy's order, the total divided by the number of values that are
    not NaN): if [mean] is below zero, the curve that goes on to
    binarization is [s] with every value exponentiated; if [mean] is zero
    or more, it is [s] itself.  That [mean] is a mean: run on exact
    numbers, the same summation gives the sum of the values that are not
    missing, and the divisor is their number. *)
Theorem first_call_log_scale_heuristic `{Extern}
    (w w1 : World) (f : File.t) (s : SlidingWindowFeature.t) :
  log_scale_ (self w) = None ->
  raw_scores f w = (inr s, w1) ->
  let d := SlidingWindowFeature.data s in
  let present (x : float) := negb (PrimFloat.is_nan x) in
  let mean :=
    PrimFloat.div
      (np_add_reduce PrimFloat.add 0%float
         (map (fun x => if PrimFloat.is_nan x then 0%float else x) (flat d)))
      (float_of_nat (List.length (filter present (flat d)))) in
  let binarization d' v :=
    (sp <- speech_vs_non_speech d' (SlidingWindowFeature.sliding_window s) ;;
     speech_regions f sp) (with_log_scale_ v w1) in
  nanmean d = mean
  /\ (PrimFloat.ltb mean 0 = true ->
      __call__ f w = binarization (map_array np_exp d) true
      /\ flat (map_array np_exp d) = map np_exp (flat d))
  /\ (PrimFloat.leb 0 mean = true ->
      __call__ f w = binarization d false)
  /\ (forall (missing : Z -> bool) (zs : list Z),
        nansum Z.add 0%Z missing zs
        = fold_right Z.add 0%Z (filter (fun z => negb (missing z)) zs)
        /\ count_non_nan missing zs
           = List.length (filter (fun z => negb (missing z)) zs)).
Proof.
  intros Hnone Hraw d present mean binarization.
  pose proof (call_first w f Hnone Hraw) as Hcall. cbv zeta in Hcall.
  fold d in Hcall.
  assert (Hmean : nanmean d = mean) by reflexivity.
  rewrite Hmean in Hcall.
  split; [exact Hmean |]. split; [| split].
  - intros Hneg. rewrite Hneg in Hcall. split; [exact Hcall |].
    apply flat_map_array.
  - intros Hpos. apply non_negative_not_negative in Hpos.
    rewrite Hpos in Hcall. exact Hcall.
  - intros missing zs. split; [apply nansum_exact | reflexivity].
Qed.

Lemma first_call_log_scale_heuristic_witness :
  let E := world_of no_scores no_scores in
  let w := fresh (instance_of None None None) in
  (nanmean (SlidingWindowFeature.data log_curve) = (-1.0583333333333333)%float
   /\ @__call__ E (file_of "log" (Some log_curve)) w
      = (sp <- speech_vs_non_speech
                 (map_array exp_approx (SlidingWindowFeature.data log_curve)) one_second ;;
         @speech_regions E (file_of "log" (Some log_curve)) sp) (with_log_scale_ true w))
  /\ (nanmean (SlidingWindowFeature.data linear_curve) = 0.5%float
      /\ @__call__ E (file_of "lin" (Some linear_curve)) w
         = (sp <- speech_vs_non_speech (SlidingWindowFeature.data linear_curve) one_second ;;
            @speech_regions E (file_of "lin" (Some linear_curve)) sp)
             (with_log_scale_ false w))
  /\ (nanmean (SlidingWindowFeature.data cancelling_curve) = (-0.0625)%float
      /\ @__call__ E (file_of "sum" (Some cancelling_curve)) w
         = (sp <- speech_vs_non_speech
                    (map_array exp_approx (SlidingWindowFeature.data cancelling_curve))
                    one_second ;;
            @speech_regions E (file_of "sum" (Some cancelling_curve)) sp)
             (with_log_scale_ true w)).
Proof.
  intros E w. split; [| split]; (split; [vm_compute; reflexivity |]).
  - apply (proj1 (proj1 (proj2 (@first_call_log_scale_heuristic E w w
             (file_of "log" (Some log_curve)) log_curve eq_refl eq_refl)) eq_refl)).
  - apply (proj1 (proj2 (proj2 (@first_call_log_scale_heuristic E w w
             (file_of "lin" (Some linear_curve)) linear_curve eq_refl eq_refl))) eq_refl).
  - apply (proj1 (proj1 (proj2 (@first_call_log_scale_heuristic E w w
             (file_of "sum" (Some cancelling_curve)) cancelling_curve eq_refl eq_refl))
             eq_refl)).
Defined.

(** C2. The flag [log_scale_] is computed from the first curve presented
    to an instance and stored on it; whatever calls follow, on whatever
    files, the flag keeps that value, and a later curve [s'] is put on a
    linear scale with the stored flag, whatever its own mean, in a step
    that leaves the instance as it is. *)
Theorem log_scale_computed_once `{Extern}
    (w w1 : World) (f : File.t) (s : SlidingWindowFeature.t)
    (files : list File.t) (s' : SlidingWindowFeature.t) :
  log_scale_ (self w) = None ->
  raw_scores f w = (inr s, w1) ->
  let b := PrimFloat.ltb (nanmean (SlidingWindowFeature.data s)) 0 in
  let w' := snd (evaluate_all (f :: files) w) in
  log_scale_ (self (snd (__call__ f w))) = Some b
  /\ log_scale_ (self w') = Some b
  /\ linear_scores s' w' =
       (inr (if b then map_array np_exp (SlidingWindowFeature.data s')
             else SlidingWindowFeature.data s'), w').
Proof.
  intros Hnone Hraw b w'.
  pose proof (evaluate_all_first w f files Hnone Hraw) as Hall.
  fold w' b in Hall.
  split; [exact (call_first_log_scale_ w f Hnone Hraw) |].
  split; [exact Hall |].
  exact (linear_scores_cached s' w' Hall).
Qed.

Lemma log_scale_computed_once_witness :
  let E := world_of no_scores no_scores in
  let w := fresh (instance_of None None None) in
  let later := [file_of "log" (Some log_curve); file_of "nan" (Some nan_curve)] in
  let w' := snd (@evaluate_all E (file_of "lin" (Some linear_curve) :: later) w) in
  log_scale_ (self w') = Some false
  /\ @linear_scores E log_curve w' = (inr (SlidingWindowFeature.data log_curve), w').
Proof.
  intros E w later w'.
  apply (@log_scale_computed_once E w w
           (file_of "lin" (Some linear_curve)) linear_curve later log_curve);
    reflexivity.
Defined.

(** C10. When the first curve presented holds no value but NaN, its mean
    is NaN, which is not below zero: the flag is set to [False], the curve
    goes on to binarization as it is, with no exception at this step; and
    in every later call on the instance the flag is still [False], so
    later curves are not exponentiated either. *)
Theorem all_nan_first_curve `{Extern}
    (w w1 : World) (f : File.t) (s : SlidingWindowFeature.t)
    (files : list File.t) (s' : SlidingWindowFeature.t) :
  log_scale_ (self w) = None ->
  raw_scores f w = (inr s, w1) ->
  Forall (fun x => PrimFloat.is_nan x = true) (flat (SlidingWindowFeature.data s)) ->
  let d := SlidingWindowFeature.data s in
  let w' := snd (evaluate_all (f :: files) w) in
  nanmean d = nan
  /\ PrimFloat.ltb (nanmean d) 0 = false
  /\ linear_scores s w1 = (inr d, with_log_scale_ false w1)
  /\ __call__ f w =
       (sp <- speech_vs_non_speech d (SlidingWindowFeature.sliding_window s) ;;
        speech_regions f sp) (with_log_scale_ false w1)
  /\ log_scale_ (self w') = Some false
  /\ linear_scores s' w' = (inr (SlidingWindowFeature.data s'), w').
Proof.
  intros Hnone Hraw Hnan d w'.
  assert (Hnone1 : log_scale_ (self w1) = None).
  { rewrite <- Hnone, <- (raw_scores_self f w), Hraw. reflexivity. }
  pose proof (nanmean_all_nan _ Hnan) as Hmean. fold d in Hmean.
  assert (Hlt : PrimFloat.ltb (nanmean d) 0 = false) by (rewrite Hmean; reflexivity).
  pose proof (linear_scores_first s w1 Hnone1) as Hlin.
  pose proof (call_first w f Hnone Hraw) as Hcall.
  pose proof (evaluate_all_first w f files Hnone Hraw) as Hall.
  cbv zeta in Hlin, Hcall. fold d in Hlin, Hcall, Hall. fold w' in Hall.
  rewrite Hlt in Hlin, Hcall, Hall.
  repeat split; try assumption.
  exact (linear_scores_cached s' w' Hall).
Qed.

Lemma all_nan_first_curve_witness :
  let E := world_of no_scores no_scores in
  let w := fresh (instance_of None None None) in
  let w' := snd (@evaluate_all E [file_of "nan" (Some nan_curve);
                                  file_of "log" (Some log_curve)] w) in
  nanmean (SlidingWindowFeature.data nan_curve) = nan
  /\ @linear_scores E nan_curve w
     = (inr (SlidingWindowFeature.data nan_curve), with_log_scale_ false w)
  /\ log_scale_ (self w') = Some false
  /\ @linear_scores E log_curve w' = (inr (SlidingWindowFeature.data log_curve), w').
Proof.
  intros E w w'.
  assert (Hnan : Forall (fun x => PrimFloat.is_nan x = true)
                        (flat (SlidingWindowFeature.data nan_curve))).
  { repeat constructor. }
  destruct (@all_nan_first_curve E w w (file_of "nan" (Some nan_curve)) nan_curve
              [file_of "log" (Some log_curve)] log_curve
              eq_refl eq_refl Hnan)
    as (Hmean & _ & Hlin & _ & Hflag & Hlater).
  repeat split; assumption.
Defined.

(** ** Speech against non-speech *)

Lemma speech_regions_log `{Extern} f sp (w : World) b :
  _binarize (self w) = Some b ->
  log (snd (speech_regions f sp w)) = log w ++ [CallBinarize b sp].
Proof.
  intros Hb. unfold speech_regions, bind, get_self. rewrite Hb. simpl.
  unfold lift. destruct (Binarize_apply b sp); simpl; [reflexivity |].
  destruct (File.uri f); reflexivity.
Qed.

(** A one-dimensional array has no second axis to read. *)
Lemma one_dimensional_scores xs win (w : World) :
  speech_vs_non_speech (Array1 xs) win w
  = (inl (IndexError "tuple index out of range"), w).
Proof. reflexivity. Qed.

(** C3. With the scores on a linear scale in an array of [c] values per
    sample: when [c] is more than one, the curve handed to the binarizer
    holds, for each sample, one minus its component 0; when [c] is one, it
    is the array itself. *)
Theorem speech_probability_columns `{Extern}
    (w w1 w2 : World) (f : File.t) (s : SlidingWindowFeature.t)
    (c : nat) (rows : list (list float)) (b : Binarize.t) :
  raw_scores f w = (inr s, w1) ->
  linear_scores s w1 = (inr (Array2 c rows), w2) ->
  _binarize (self w2) = Some b ->
  let handed sp :=
    __call__ f w = speech_regions f sp w2
    /\ log (snd (__call__ f w)) = log w2 ++ [CallBinarize b sp] in
  (1 < c ->
     handed {| SlidingWindowFeature.data :=
                 Array1 (map (fun r => PrimFloat.sub 1 (nth 0 r nan)) rows);
               SlidingWindowFeature.sliding_window :=
                 SlidingWindowFeature.sliding_window s |})
  /\ (c = 1 ->
     handed {| SlidingWindowFeature.data := Array2 c rows;
               SlidingWindowFeature.sliding_window :=
                 SlidingWindowFeature.sliding_window s |}).
Proof.
  intros Hraw Hlin Hb handed.
  assert (Hcall : __call__ f w =
                  (sp <- speech_vs_non_speech (Array2 c rows)
                           (SlidingWindowFeature.sliding_window s) ;;
                   speech_regions f sp) w2).
  { unfold __call__.
    rewrite (bind_inr (raw_scores f) _ w Hraw).
    rewrite (bind_inr (linear_scores s) _ w1 Hlin). reflexivity. }
  split; intros Hc; unfold handed; rewrite Hcall;
    unfold speech_vs_non_speech, bind; simpl.
  - apply Nat.ltb_lt in Hc. rewrite Hc. simpl.
    unfold column. rewrite map_map.
    split; [reflexivity | apply speech_regions_log; exact Hb].
  - subst c. simpl.
    split; [reflexivity | apply speech_regions_log; exact Hb].
Qed.

Lemma speech_probability_columns_witness :
  let E := world_of no_scores no_scores in
  let w := fresh (instance_of None None None) in
  let w2 := with_log_scale_ false w in
  (exists b,
      log (snd (@__call__ E (file_of "lin" (Some linear_curve)) w))
      = [CallBinarize b (curve_of (Array1 [1 - 0.9; 1 - 0.8; 1 - 0.15]%float))])
  /\ (exists b,
      log (snd (@__call__ E (file_of "one" (Some scenario_curve)) w))
      = [CallBinarize b scenario_curve]).
Proof.
  intros E w w2. split.
  - eexists.
    apply (@speech_probability_columns E w w w2
             (file_of "lin" (Some linear_curve)) linear_curve 2
             [[0.9; 0.1]; [0.8; 0.2]; [0.15; 0.85]]%float);
      (reflexivity || (simpl; lia)).
  - eexists.
    apply (@speech_probability_columns E w w w2
             (file_of "one" (Some scenario_curve)) scenario_curve 1
             [[0.1]; [0.1]; [0.9]; [0.9]; [0.9];
              [0.2]; [0.2]; [0.9]; [0.9]; [0.1]]%float);
      reflexivity.
Defined.

(** ** Where the scores come from *)

(** C4. The scores of a call are found in this order.  A curve attached
    to the file record is used as it is, and no source is consulted.
    Otherwise, when a location of precomputed scores was configured, the
    store is asked for the file, once, and its answer stands.  Otherwise
    the pretrained model is run on the file, once, and its answer
    stands. *)
Theorem score_resolution_order (w : World) (f : File.t) :
  (forall s, File.sad_scores f = Some s -> raw_scores f w = (inr s, w))
  /\ (forall root store,
        File.sad_scores f = None ->
        precomputed (self w) = Some root ->
        _precomputed (self w) = Some store ->
        raw_scores f w = (answer f (store f), logged (CallPrecomputed f) w))
  /\ (forall model,
        File.sad_scores f = None ->
        precomputed (self w) = None ->
        _pretrained (self w) = Some model ->
        raw_scores f w = (answer f (model f), logged (CallPretrained f) w)).
Proof.
  split; [| split].
  - intros s Hs. unfold raw_scores, bind. rewrite Hs. reflexivity.
  - intros root store Hs Hroot Hstore.
    unfold raw_scores, bind, get_self, answer, lift. rewrite Hs, Hroot, Hstore. simpl.
    destruct (store f) as [e | [s |]]; simpl; try reflexivity.
    destruct (File.uri f); reflexivity.
  - intros model Hs Hroot Hmodel.
    unfold raw_scores, bind, get_self, answer, lift. rewrite Hs, Hroot, Hmodel. simpl.
    destruct (model f) as [e | [s |]]; simpl; try reflexivity.
    destruct (File.uri f); reflexivity.
Qed.

Lemma score_resolution_order_witness :
  let stored : Scorer := fun _ => inr (Some linear_curve) in
  let inferred : Scorer := fun _ => inr (Some log_curve) in
  let both := fresh (instance_of (Some "scores") (Some stored) (Some inferred)) in
  let model_only := fresh (instance_of None None (Some inferred)) in
  let attached := file_of "a" (Some scenario_curve) in
  let bare := file_of "b" None in
  raw_scores attached both = (inr scenario_curve, both)
  /\ raw_scores bare both = (inr linear_curve, logged (CallPrecomputed bare) both)
  /\ raw_scores bare model_only
     = (inr log_curve, logged (CallPretrained bare) model_only).
Proof.
  intros stored inferred both model_only attached bare.
  split; [| split].
  - apply (proj1 (score_resolution_order both attached)). reflexivity.
  - apply (proj1 (proj2 (score_resolution_order both bare)) "scores" stored);
      reflexivity.
  - apply (proj2 (proj2 (score_resolution_order model_only bare)) inferred);
      reflexivity.
Defined.

Lemma prefix_app (a b : string) : String.prefix a (a ++ b) = true.
Proof.
  induction a as [| c a IH]; simpl; [destruct b; reflexivity |].
  destruct (ascii_dec c c) as [_ | Hneq]; [exact IH | congruence].
Qed.

Lemma contains_unfold (needle hay : string) :
  contains needle hay
  = String.prefix needle hay
    || match hay with
       | EmptyString => false
       | String _ hay' => contains needle hay'
       end.
Proof. destruct hay; reflexivity. Qed.

Lemma contains_app (needle pre post : string) :
  contains needle (pre ++ needle ++ post) = true.
Proof.
  induction pre as [| c pre IH].
  - change (EmptyString ++ needle ++ post)%string with (needle ++ post)%string.
    rewrite contains_unfold, prefix_app. reflexivity.
  - change (String c pre ++ needle ++ post)%string
      with (String c (pre ++ needle ++ post)).
    rewrite contains_unfold. cbv beta iota.
    rewrite IH. apply orb_true_r.
Qed.

(** The error for a file with no scores holds the identifier of the file. *)
Lemma unavailable_mentions (uri : string) : mentions (unavailable uri) uri = true.
Proof. unfold mentions, unavailable, message. apply contains_app. Qed.

(** An instance built with no argument has no source to consult: on a
    file with no scores attached, where all three sources yield nothing,
    the call fails on the missing attribute, and the error does not hold
    the identifier of the file. *)
Lemma no_scores_is_fatal_counterexample :
  let E := world_of no_scores no_scores in
  let w := fresh just_built in
  let f := file_of "file1" None in
  yields_nothing (self w) f
  /\ File.uri f = Some "file1"
  /\ @__call__ E f w = (inl (AttributeError "_pretrained"), w)
  /\ mentions (AttributeError "_pretrained") "file1" = false.
Proof.
  intros E w f.
  split; [split; [reflexivity | split; intros src Hsrc; discriminate] |].
  split; [reflexivity |].
  split; [reflexivity | vm_compute; reflexivity].
Qed.

(** C5, as the code has it.  On a file with no curve attached, the call
    reads the source it consults: the store when a location of
    precomputed scores is configured, the pretrained model otherwise.
    When the instance has that source and the source returns nothing, the
    call ends in the error "Could not get raw SAD scores for file <uri>.",
    which holds the identifier of the file ([KeyError] on ['uri'] for a
    file with none); the error is the outcome of the call, with no
    annotation; the source was consulted once, and the instance is as it
    was.  When the source raises, its exception is the outcome, after the
    one consultation.  When the instance lacks the source, the call ends
    in [AttributeError] on the missing attribute, which does not name the
    file, and nothing was consulted. *)
Theorem no_scores_is_fatal `{Extern} (w : World) (f : File.t) :
  File.sad_scores f = None ->
  match consulted (self w) with
  | Some source =>
      match source f with
      | inr None =>
          __call__ f w = (inl (no_scores_error f), logged (consultation (self w) f) w)
          /\ (forall uri, File.uri f = Some uri ->
                          no_scores_error f
                          = ValueError ("Could not get raw SAD scores for file "
                                        ++ uri ++ ".")%string
                          /\ mentions (no_scores_error f) uri = true)
      | inl e =>
          __call__ f w = (inl e, logged (consultation (self w) f) w)
      | inr (Some s) =>
          raw_scores f w = (inr s, logged (consultation (self w) f) w)
      end
  | None =>
      __call__ f w = (inl (AttributeError (source_attribute (self w))), w)
  end.
Proof.
  intros Hs. unfold consulted, consultation, source_attribute, no_scores_error.
  assert (Hraw : forall r w1, raw_scores f w = (inl r, w1) -> __call__ f w = (inl r, w1)).
  { intros r w1 Hr. unfold __call__. exact (bind_inl (raw_scores f) _ w Hr). }
  unfold raw_scores, bind, get_self, lift in *. rewrite Hs in *.
  destruct (precomputed (self w)) as [root |].
  - destruct (_precomputed (self w)) as [store |]; simpl in *; [| apply Hraw; reflexivity].
    destruct (store f) as [e | [s |]]; simpl in *.
    + apply Hraw. reflexivity.
    + reflexivity.
    + split.
      * apply Hraw. destruct (File.uri f); reflexivity.
      * intros uri Huri. rewrite Huri. split; [reflexivity | apply unavailable_mentions].
  - destruct (_pretrained (self w)) as [model |]; simpl in *; [| apply Hraw; reflexivity].
    destruct (model f) as [e | [s |]]; simpl in *.
    + apply Hraw. reflexivity.
    + reflexivity.
    + split.
      * apply Hraw. destruct (File.uri f); reflexivity.
      * intros uri Huri. rewrite Huri. split; [reflexivity | apply unavailable_mentions].
Qed.

Lemma no_scores_is_fatal_witness :
  let E := world_of no_scores no_scores in
  let w := fresh (instance_of (Some "scores") (Some no_scores) None) in
  let f := file_of "file1" None in
  (@__call__ E f w
   = (inl (ValueError "Could not get raw SAD scores for file file1."),
      logged (CallPrecomputed f) w)
   /\ mentions (ValueError "Could not get raw SAD scores for file file1.") "file1" = true)
  /\ @__call__ E f (fresh just_built)
     = (inl (AttributeError "_pretrained"), fresh just_built)
  /\ (let w' := fresh (instance_of (Some "scores") (Some empty_store) None) in
      @__call__ E f w'
      = (inl (Raised "PyannoteFeatureExtractionError" "no precomputed features"),
         logged (CallPrecomputed f) w')).
Proof.
  intros E w f. split; [| split].
  - pose proof (@no_scores_is_fatal E w f eq_refl) as Hstore.
    simpl in Hstore. destruct Hstore as [Hcall Huri].
    split; [exact Hcall |].
    exact (proj2 (Huri "file1" eq_refl)).
  - exact (@no_scores_is_fatal E (fresh just_built) f eq_refl).
  - exact (@no_scores_is_fatal E
             (fresh (instance_of (Some "scores") (Some empty_store) None)) f eq_refl).
Defined.

(** ** Building an instance *)

(** The message of the warning about [scores]. *)
Lemma deprecation_message :
  (dquote ++ "scores" ++ dquote ++ " is being deprecated in favor of "
   ++ dquote ++ "precomputed" ++ dquote ++ ".")%string
  = String (ascii_of_nat 34)
      ("scores" ++ String (ascii_of_nat 34)
         (" is being deprecated in favor of " ++ String (ascii_of_nat 34)
            ("precomputed" ++ String (ascii_of_nat 34) ".")))%string.
Proof. reflexivity. Qed.

(** The names the methods read apart from [Pretrained] and [torch] are
    bound. *)
Lemma names_bound :
  forallb is_bound
    [ "super"; "warnings"; "Precomputed"; "Path"; "Uniform"; "Binarize";
      "hasattr"; "np"; "SlidingWindowFeature"; "ValueError";
      "DetectionErrorRate" ] = true.
Proof. reflexivity. Qed.

Lemma init_without_pretrained `{Extern} (precomputed : option Path) (log : list Event) :
  __init__ precomputed None None log
  = (inr {| precomputed := precomputed;
            _precomputed := option_map Precomputed precomputed;
            pretrained := None;
            _pretrained := None;
            onset := Uniform 0 1;
            offset := Uniform 0 1;
            min_duration_on := Uniform 0 2;
            min_duration_off := Uniform 0 2;
            pad_onset := Uniform (-1) 1;
            pad_offset := Uniform (-1) 1;
            _binarize := None;
            log_scale_ := None |}, log).
Proof. destruct precomputed; reflexivity. Qed.

Lemma init_with_pretrained `{Extern}
    (precomputed scores : option Path) (p : Path) (log : list Event) :
  fst (__init__ precomputed scores (Some p) log)
  = inl (NameError (if Path_exists p then "Pretrained" else "torch")).
Proof.
  unfold __init__, bind.
  destruct scores as [s |], precomputed as [root |]; simpl;
    destruct (Path_exists p); reflexivity.
Qed.

Lemma init_with_scores `{Extern} (precomputed : option Path) (s : Path) (log : list Event) :
  exists msg,
    __init__ precomputed (Some s) None log
    = (inr {| precomputed := Some s;
              _precomputed := Some (Precomputed s);
              pretrained := None;
              _pretrained := None;
              onset := Uniform 0 1;
              offset := Uniform 0 1;
              min_duration_on := Uniform 0 2;
              min_duration_off := Uniform 0 2;
              pad_onset := Uniform (-1) 1;
              pad_offset := Uniform (-1) 1;
              _binarize := None;
              log_scale_ := None |}, log ++ [Warn msg]).
Proof. eexists. reflexivity. Qed.

(** C8. Building an instance with [scores] given emits one warning, the
    one about [scores] being deprecated, at construction time, and keeps
    the value as the location of precomputed scores: the instance built
    has [precomputed] set to it and [_precomputed] set to the store
    opened on it, whatever [precomputed] was given.  From there on it is
    building with [precomputed] set to that value: the instance built, or
    the exception raised, is the same, so that detection is not altered.
    Without [scores] there is no warning. *)
Theorem scores_is_alias_of_precomputed `{Extern}
    (precomputed : option Path) (s : Path) (pretrained : option Path)
    (log : list Event) :
  let warning :=
    Warn (dquote ++ "scores" ++ dquote ++ " is being deprecated in favor of "
          ++ dquote ++ "precomputed" ++ dquote ++ ".")%string in
  __init__ precomputed (Some s) pretrained log
  = (match pretrained with
     | Some p => inl (NameError (if Path_exists p then "Pretrained" else "torch"))
     | None =>
         inr {| SpeechActivityDetection.precomputed := Some s;
                _precomputed := Some (Precomputed s);
                SpeechActivityDetection.pretrained := None;
                _pretrained := None;
                onset := Uniform 0 1;
                offset := Uniform 0 1;
                min_duration_on := Uniform 0 2;
                min_duration_off := Uniform 0 2;
                pad_onset := Uniform (-1) 1;
                pad_offset := Uniform (-1) 1;
                _binarize := None;
                log_scale_ := None |}
     end,
     log ++ [warning])
  /\ __init__ precomputed (Some s) pretrained log
     = (fst (__init__ (Some s) None pretrained []), log ++ [warning])
  /\ snd (__init__ precomputed None pretrained log) = log.
Proof.
  intros warning. unfold __init__, bind.
  destruct pretrained as [p |], precomputed as [root |]; simpl;
    try destruct (Path_exists p); repeat split; reflexivity.
Qed.

(** ** The pretrained model *)

Lemma raw_scores_no_model (f : File.t) (w : World) :
  _pretrained (self w) = None ->
  log (snd (raw_scores f w)) = log w
  \/ log (snd (raw_scores f w)) = log w ++ [CallPrecomputed f].
Proof.
  intros Hnone. unfold raw_scores, bind, get_self.
  destruct (File.sad_scores f) as [s |]; simpl; [left; reflexivity |].
  destruct (precomputed (self w)) as [p |].
  - destruct (_precomputed (self w)) as [store |]; simpl; [| left; reflexivity].
    right. unfold lift. destruct (store f) as [e | [s |]]; simpl; try reflexivity.
    destruct (File.uri f); reflexivity.
  - rewrite Hnone. left. reflexivity.
Qed.

Lemma linear_scores_keeps `{Extern} s (w : World) :
  _pretrained (self (snd (linear_scores s w))) = _pretrained (self w)
  /\ log (snd (linear_scores s w)) = log w.
Proof.
  unfold linear_scores, bind, get_self.
  destruct (log_scale_ (self w)) as [b |] eqn:Hb; simpl.
  - rewrite Hb. split; reflexivity.
  - destruct (PrimFloat.ltb (nanmean (SlidingWindowFeature.data s)) 0);
      split; reflexivity.
Qed.

Lemma speech_regions_logs `{Extern} f sp (w : World) :
  log (snd (speech_regions f sp w)) = log w
  \/ exists b, log (snd (speech_regions f sp w)) = log w ++ [CallBinarize b sp].
Proof.
  destruct (_binarize (self w)) as [b |] eqn:Hb.
  - right. exists b. apply speech_regions_log. exact Hb.
  - left. unfold speech_regions, bind, get_self. rewrite Hb. reflexivity.
Qed.

(** A call on an instance with no pretrained model runs no model and
    leaves the instance without one. *)
Lemma call_without_model `{Extern} (f : File.t) (w : World) :
  _pretrained (self w) = None ->
  _pretrained (self (snd (__call__ f w))) = None
  /\ forall g, In (CallPretrained g) (log (snd (__call__ f w))) ->
               In (CallPretrained g) (log w).
Proof.
  intros Hnone. unfold __call__, bind.
  pose proof (raw_scores_self f w) as Hself.
  pose proof (raw_scores_no_model f w Hnone) as Hlog.
  destruct (raw_scores f w) as [[e | s] w1]; simpl in Hself, Hlog.
  - simpl. rewrite Hself. split; [exact Hnone |].
    intros g Hin. destruct Hlog as [Hlog | Hlog]; rewrite Hlog in Hin; [exact Hin |].
    apply in_app_or in Hin. destruct Hin as [Hin | [Hin | []]]; [exact Hin | discriminate].
  - assert (Hw1 : forall g, In (CallPretrained g) (log w1) -> In (CallPretrained g) (log w)).
    { intros g Hin. destruct Hlog as [Hlog | Hlog]; rewrite Hlog in Hin; [exact Hin |].
      apply in_app_or in Hin. destruct Hin as [Hin | [Hin | []]]; [exact Hin | discriminate]. }
    destruct (linear_scores_keeps s w1) as [Hk Hl].
    destruct (linear_scores s w1) as [[e | d] w2]; simpl in Hk, Hl.
    + simpl. rewrite Hk, Hself, Hl. split; [exact Hnone | exact Hw1].
    + pose proof (speech_vs_non_speech_state d
                    (SlidingWindowFeature.sliding_window s) w2) as Hsp.
      destruct (speech_vs_non_speech d _ w2) as [[e | sp] w3]; simpl in Hsp; subst w3.
      * simpl. rewrite Hk, Hself, Hl. split; [exact Hnone | exact Hw1].
      * rewrite speech_regions_self, Hk, Hself. split; [exact Hnone |].
        intros g Hin. apply Hw1. rewrite <- Hl.
        destruct (speech_regions_logs f sp w2) as [Hr | [b Hr]];
          rewrite Hr in Hin; [exact Hin |].
        apply in_app_or in Hin.
        destruct Hin as [Hin | [Hin | []]]; [exact Hin | discriminate].
Qed.

Lemma evaluate_all_without_model `{Extern} (files : list File.t) (w : World) :
  _pretrained (self w) = None ->
  forall g, In (CallPretrained g) (log (snd (evaluate_all files w))) ->
            In (CallPretrained g) (log w).
Proof.
  revert w. induction files as [| f files IH]; intros w Hnone g; simpl; [tauto |].
  destruct (call_without_model f w Hnone) as [Hnone1 Hlog1].
  destruct (__call__ f w) as [r w1]. simpl in Hnone1, Hlog1.
  specialize (IH w1 Hnone1 g).
  destruct (evaluate_all files w1) as [rs w2]. simpl in IH |- *.
  intros Hin. apply Hlog1, IH, Hin.
Qed.

(** C9. Building an instance with [pretrained] given raises [NameError]:
    for the name [Pretrained] when the path exists, for the name [torch]
    when it does not, neither of which is bound in the module.  So an
    instance that was built has no pretrained model: a call that has to
    turn to the model fails on the missing attribute, and no sequence of
    calls on the instance, once instantiated, runs a model. *)
Theorem pretrained_raises_NameError `{Extern}
    (precomputed scores pretrained : option Path) (log0 : list Event) :
  (forall p, pretrained = Some p ->
     fst (__init__ precomputed scores pretrained log0)
     = inl (NameError (if Path_exists p then "Pretrained" else "torch")))
  /\ is_bound "Pretrained" = false
  /\ is_bound "torch" = false
  /\ (forall built log1,
        __init__ precomputed scores pretrained log0 = (inr built, log1) ->
        pretrained = None
        /\ _pretrained built = None
        /\ (forall f w,
              self w = built -> File.sad_scores f = None ->
              SpeechActivityDetection.precomputed built = None ->
              __call__ f w = (inl (AttributeError "_pretrained"), w))
        /\ (forall params files g,
              ~ In (CallPretrained g)
                   (log (snd (evaluate_all files
                                (snd (instantiate params (fresh built)))))))).
Proof.
  split; [| split; [reflexivity | split; [reflexivity |]]].
  - intros p Hp. subst pretrained. apply init_with_pretrained.
  - intros built log1 Hinit.
    assert (Hpt : pretrained = None).
    { destruct pretrained as [p |]; [| reflexivity].
      pose proof (init_with_pretrained precomputed scores p log0) as Herr.
      rewrite Hinit in Herr. discriminate. }
    subst pretrained.
    assert (Hmodel : _pretrained built = None).
    { destruct scores as [s |].
      - destruct (init_with_scores precomputed s log0) as [msg Hs].
        rewrite Hs in Hinit. inversion Hinit. reflexivity.
      - rewrite init_without_pretrained in Hinit. inversion Hinit. reflexivity. }
    split; [reflexivity | split; [exact Hmodel | split]].
    + intros f w Hself Hs Hroot. subst built.
      unfold __call__. apply bind_inl.
      unfold raw_scores, bind, get_self. rewrite Hs, Hroot, Hmodel. reflexivity.
    + intros params files g Hin.
      apply evaluate_all_without_model in Hin; [exact Hin | exact Hmodel].
Qed.

Lemma pretrained_raises_NameError_witness :
  let on_disk := world_with_files ["/models/sad"] no_scores no_scores in
  let E := world_of no_scores no_scores in
  fst (@__init__ on_disk None None (Some "/models/sad") []) = inl (NameError "Pretrained")
  /\ fst (@__init__ E None None (Some "sad_ami") []) = inl (NameError "torch")
  /\ fst (@__call__ E (file_of "file1" None) (fresh just_built))
     = inl (AttributeError "_pretrained").
Proof.
  intros on_disk E. split; [| split].
  - apply (proj1 (@pretrained_raises_NameError on_disk None None
                    (Some "/models/sad") []) "/models/sad").
    reflexivity.
  - apply (proj1 (@pretrained_raises_NameError E None None (Some "sad_ami") [])
             "sad_ami").
    reflexivity.
  - destruct (proj2 (proj2 (proj2 (@pretrained_raises_NameError E None None None [])))
               just_built [] eq_refl)
      as (_ & _ & Hcall & _).
    rewrite (Hcall (file_of "file1" None) (fresh just_built)); reflexivity.
Defined.

(** ** The scenario *)

(** C6. The curve of ten one-second windows with values 0.1, 0.1, 0.9,
    0.9, 0.9, 0.2, 0.2, 0.9, 0.9, 0.1, binarized with onset 0.5, offset
    0.5, no padding, min_duration_on 0 and min_duration_off 2: the scan
    finds the regions [2,5) and [7,9); their gap, 7 - 5, is not less than
    min_duration_off; the binarizer returns these two regions; and so does
    a pipeline built, instantiated with these parameters and called on a
    file with the curve attached. *)
Theorem scenario_two_regions :
  let E := world_of no_scores no_scores in
  let ys := [0.1; 0.1; 0.9; 0.9; 0.9; 0.2; 0.2; 0.9; 0.9; 0.1]%float in
  HysteresisBinarizer.scan scenario_params one_second 10 0 None ys
  = [region 2 5; region 7 9]
  /\ PrimFloat.ltb (PrimFloat.sub 7 5)
       (HysteresisBinarizer.min_duration_off scenario_params) = false
  /\ HysteresisBinarizer.binarize scenario_params one_second ys
     = [region 2 5; region 7 9]
  /\ exists built,
       @__init__ E None None None [] = (inr built, [])
       /\ instantiate scenario_params (fresh built)
          = (inr tt, fresh (instance_of None None None))
       /\ fst (@__call__ E (file_of "file1" (Some scenario_curve))
                 (fresh (instance_of None None None)))
          = inr {| Annotation.uri := Some "file1";
                   Annotation.modality := Some "speech";
                   Annotation.tracks := [(region 2 5, "A"); (region 7 9, "B")] |}.
Proof.
  intros E ys.
  split; [vm_compute; reflexivity |].
  split; [vm_compute; reflexivity |].
  split; [vm_compute; reflexivity |].
  exists just_built.
  split; [reflexivity |].
  split; [reflexivity |].
  vm_compute. reflexivity.
Qed.

Lemma map_snd_combine {A B} (l : list A) (l' : list B) :
  length l = length l' -> map snd (combine l l') = l'.
Proof.
  revert l'. induction l as [| x l IH]; intros [| y l'] Hlen; simpl in *;
    try reflexivity; try discriminate.
  rewrite IH by lia. reflexivity.
Qed.

Lemma support_is_union (tl : Timeline.t) :
  Forall timed (Timeline.segments tl) ->
  Sorted starts_before (Timeline.segments tl) ->
  Sorted apart (Timeline.segments (support tl))
  /\ forall t, covers (Timeline.segments (support tl)) t
               <-> covers (Timeline.segments tl) t.
Proof.
  intros Htimed Hsorted. unfold support. simpl.
  destruct (Timeline.segments tl) as [| s l]; [split; [constructor | tauto] |].
  inversion Htimed as [| ? ? Hs Hl]; subst.
  split; [exact (@support_from_apart l s Hs Hl) |].
  exact (proj2 (@support_from_covers l s Hs Hl Hsorted)).
Qed.

(** ** The oracle *)

(** C7. For a file record with a reference annotation, the oracle returns
    the support of the timeline of the reference, each region with the next
    label of the generator, with modality "speech"; when the bounds of the
    reference segments are numbers, the regions returned are apart from
    one another and an instant is in one of them exactly when it is in a
    segment of the reference: they are the union.  For the reference with
    the segments [0,2) and [1,3) the result is the one region [0,3). *)
Theorem oracle_returns_support :
  (forall (f : File.t) (a : Annotation.t),
      File.annotation f = Some a ->
      exists speech,
        OracleSpeechActivityDetection.__call__ f = inr speech
        /\ map fst (Annotation.tracks speech)
           = Timeline.segments (support (get_timeline a))
        /\ map snd (Annotation.tracks speech)
           = map string_generator (seq 0 (length (Annotation.tracks speech)))
        /\ Annotation.modality speech = Some "speech"
        /\ (Forall timed (map fst (Annotation.tracks a)) ->
            Sorted apart (map fst (Annotation.tracks speech))
            /\ forall t, covers (map fst (Annotation.tracks speech)) t
                         <-> covers (map fst (Annotation.tracks a)) t))
  /\ OracleSpeechActivityDetection.__call__ reference_file
     = inr {| Annotation.uri := Some "ref";
              Annotation.modality := Some "speech";
              Annotation.tracks := [(region 0 3, "A")] |}.
Proof.
  split; [| vm_compute; reflexivity].
  intros f a Ha.
  exists (to_annotation (support (get_timeline a)) "speech").
  split; [unfold OracleSpeechActivityDetection.__call__; rewrite Ha; reflexivity |].
  split; [apply to_annotation_segments |].
  split.
  { unfold to_annotation. simpl.
    rewrite length_combine, length_map, length_seq, Nat.min_id.
    apply map_snd_combine. rewrite length_map, length_seq. reflexivity. }
  split; [reflexivity |].
  intros Htimed. rewrite to_annotation_segments.
  destruct (get_timeline_sorted a Htimed) as (Ht & Hs & Hc).
  destruct (support_is_union (get_timeline a) Ht Hs) as [Hapart Hunion].
  split; [exact Hapart |].
  intros t. rewrite Hunion. apply Hc.
Qed.

Lemma oracle_returns_support_witness :
  exists speech,
    OracleSpeechActivityDetection.__call__ reference_file = inr speech
    /\ map fst (Annotation.tracks speech) = [region 0 3]
    /\ forall t, covers (map fst (Annotation.tracks speech)) t
                 <-> covers [region 0 2; region 1 3] t.
Proof.
  destruct (proj1 oracle_returns_support reference_file overlapping_reference eq_refl)
    as (speech & Hcall & Hsegs & _ & _ & Hunion).
  exists speech.
  split; [exact Hcall |].
  split; [rewrite Hsegs; vm_compute; reflexivity |].
  apply Hunion. repeat constructor.
Defined.

(** * Further properties of the pipelines *)

(** ** What a call depends on *)

Lemma same_wiring_refl a : same_wiring a a.
Proof. repeat split. Qed.

Lemma reads_wiring_only_bind {A B} (m : M World A) (k : A -> M World B) :
  reads_wiring_only m ->
  (forall a, reads_wiring_only (k a)) ->
  reads_wiring_only (bind m k).
Proof.
  intros Hm Hk w w' Hsim. unfold bind.
  destruct (Hm w w' Hsim) as [Hfst Hsnd].
  destruct (m w) as [[e | a] w1], (m w') as [[e' | a'] w1'];
    simpl in Hfst, Hsnd; try discriminate.
  - inversion Hfst; subst e'. simpl. split; [reflexivity | exact Hsnd].
  - inversion Hfst; subst a'. apply Hk. exact Hsnd.
Qed.

Lemma raw_scores_reads_wiring_only (f : File.t) :
  reads_wiring_only (raw_scores f).
Proof.
  intros w w' (Hroot & Hstore & Hmodel & Hbin & Hflag).
  unfold raw_scores, bind, get_self.
  destruct (File.sad_scores f) as [s |]; simpl.
  - repeat split; congruence.
  - rewrite <- Hroot, <- Hstore, <- Hmodel.
    destruct (precomputed (self w)) as [root |] eqn:Eroot.
    + destruct (_precomputed (self w)) as [store |] eqn:Estore; simpl.
      * unfold lift. destruct (store f) as [e | [s |]]; simpl;
          try (repeat split; congruence).
        destruct (File.uri f); simpl; repeat split; congruence.
      * repeat split; congruence.
    + destruct (_pretrained (self w)) as [model |] eqn:Emodel; simpl.
      * unfold lift. destruct (model f) as [e | [s |]]; simpl;
          try (repeat split; congruence).
        destruct (File.uri f); simpl; repeat split; congruence.
      * repeat split; congruence.
Qed.

Lemma linear_scores_reads_wiring_only `{Extern} (s : SlidingWindowFeature.t) :
  reads_wiring_only (linear_scores s).
Proof.
  intros w w' (Hroot & Hstore & Hmodel & Hbin & Hflag).
  unfold linear_scores, bind, get_self. rewrite <- Hflag.
  destruct (log_scale_ (self w)) as [b |] eqn:Hb; simpl.
  - rewrite <- Hflag, Hb. simpl. repeat split; congruence.
  - destruct (PrimFloat.ltb (nanmean (SlidingWindowFeature.data s)) 0);
      simpl; repeat split; simpl; congruence.
Qed.

Lemma speech_vs_non_speech_reads_wiring_only data win :
  reads_wiring_only (speech_vs_non_speech data win).
Proof.
  intros w w' Hsim. unfold speech_vs_non_speech, bind.
  destruct data as [xs | c rows]; simpl; [split; [reflexivity | exact Hsim] |].
  destruct (Nat.ltb 1 c); split; (reflexivity || exact Hsim).
Qed.

Lemma speech_regions_reads_wiring_only `{Extern} f sp :
  reads_wiring_only (speech_regions f sp).
Proof.
  intros w w' (Hroot & Hstore & Hmodel & Hbin & Hflag).
  unfold speech_regions, bind, get_self. rewrite <- Hbin.
  destruct (_binarize (self w)) as [b |] eqn:Ebin; simpl; [| repeat split; congruence].
  unfold lift. destruct (Binarize_apply b sp); simpl; [repeat split; congruence |].
  destruct (File.uri f); simpl; repeat split; congruence.
Qed.

Lemma call_reads_wiring_only `{Extern} (f : File.t) :
  reads_wiring_only (__call__ f).
Proof.
  unfold __call__.
  apply reads_wiring_only_bind; [apply raw_scores_reads_wiring_only |].
  intros s. apply reads_wiring_only_bind; [apply linear_scores_reads_wiring_only |].
  intros d. apply reads_wiring_only_bind; [apply speech_vs_non_speech_reads_wiring_only |].
  intros sp. apply speech_regions_reads_wiring_only.
Qed.

(** X1. Assigning the hyper-parameter attributes of an instance changes
    nothing in what a call returns, which binarizer it runs or which flag
    it stores: a call reads the binarizer built by the last [initialize],
    never the attributes. *)
Theorem call_ignores_hyper_parameters `{Extern}
    (h : Binarize.t) (w : World) (f : File.t) :
  fst (__call__ f (with_hyper h w)) = fst (__call__ f w)
  /\ _binarize (self (snd (__call__ f (with_hyper h w))))
     = _binarize (self (snd (__call__ f w)))
  /\ log_scale_ (self (snd (__call__ f (with_hyper h w))))
     = log_scale_ (self (snd (__call__ f w))).
Proof.
  assert (Hsim : same_wiring (self (with_hyper h w)) (self w)).
  { repeat split. }
  destruct (call_reads_wiring_only f (with_hyper h w) w Hsim)
    as (Hfst & _ & _ & _ & Hbin & Hflag).
  split; [exact Hfst | split; [exact Hbin | exact Hflag]].
Qed.

(** ** Calls once the flag is stored *)

Lemma call_leaves_self_cached `{Extern} (f : File.t) (w : World) b :
  log_scale_ (self w) = Some b ->
  self (snd (__call__ f w)) = self w.
Proof.
  intros Hb. unfold __call__, bind.
  pose proof (raw_scores_self f w) as Hraw.
  destruct (raw_scores f w) as [[e | s] w1]; simpl in Hraw; simpl; [exact Hraw |].
  rewrite (linear_scores_cached s w1 (b := b)) by (rewrite Hraw; exact Hb).
  pose proof (speech_vs_non_speech_state
                (if b then map_array np_exp (SlidingWindowFeature.data s)
                 else SlidingWindowFeature.data s)
                (SlidingWindowFeature.sliding_window s) w1) as Hsp.
  destruct (speech_vs_non_speech _ _ w1) as [[e | sp] w2]; simpl in Hsp; subst w2.
  - exact Hraw.
  - rewrite speech_regions_self. exact Hraw.
Qed.

Lemma evaluate_all_leaves_self_cached `{Extern} (files : list File.t) (w : World) b :
  log_scale_ (self w) = Some b ->
  self (snd (evaluate_all files w)) = self w.
Proof.
  revert w. induction files as [| f files IH]; intros w Hb; simpl; [reflexivity |].
  pose proof (call_leaves_self_cached f w Hb) as Hcall.
  destruct (__call__ f w) as [r w1]. simpl in Hcall.
  assert (Hb1 : log_scale_ (self w1) = Some b) by (rewrite Hcall; exact Hb).
  specialize (IH w1 Hb1).
  destruct (evaluate_all files w1) as [rs w2]. simpl in IH |- *.
  rewrite IH. exact Hcall.
Qed.

(** X2. Once the flag [log_scale_] is stored, a call changes no attribute
    of the instance, and what a call returns for a file is the same
    before and after any other files were evaluated: the order of the
    files no longer matters. *)
Theorem calls_independent_once_cached `{Extern}
    (w : World) (b : bool) (files : list File.t) (f : File.t) :
  log_scale_ (self w) = Some b ->
  self (snd (evaluate_all files w)) = self w
  /\ fst (__call__ f (snd (evaluate_all files w))) = fst (__call__ f w).
Proof.
  intros Hb.
  pose proof (evaluate_all_leaves_self_cached files w Hb) as Hself.
  split; [exact Hself |].
  apply (call_reads_wiring_only f). rewrite Hself. apply same_wiring_refl.
Qed.

Lemma calls_independent_once_cached_witness :
  let E := world_of no_scores no_scores in
  let w := with_log_scale_ true (fresh (instance_of None None None)) in
  let others := [file_of "lin" (Some linear_curve); file_of "none" None;
                 file_of "nan" (Some nan_curve)] in
  fst (@__call__ E (file_of "log" (Some log_curve)) (snd (@evaluate_all E others w)))
  = fst (@__call__ E (file_of "log" (Some log_curve)) w).
Proof.
  intros E w others.
  apply (@calls_independent_once_cached E w true others
           (file_of "log" (Some log_curve))).
  reflexivity.
Defined.

(** ** Files with no scores *)

Lemma raw_scores_unresolved (g : File.t) (w : World) :
  unresolved (self w) g ->
  exists e w1, raw_scores g w = (inl e, w1).
Proof.
  intros [Hs Hsrc]. unfold consulted in Hsrc.
  unfold raw_scores, bind, get_self, lift. rewrite Hs.
  destruct (precomputed (self w)) as [root |].
  - destruct (_precomputed (self w)) as [store |]; simpl;
      [| do 2 eexists; reflexivity].
    destruct (store g) as [e | [s |]] eqn:Hg; simpl.
    + do 2 eexists; reflexivity.
    + exfalso. apply (Hsrc s). reflexivity.
    + destruct (File.uri g); simpl; do 2 eexists; reflexivity.
  - destruct (_pretrained (self w)) as [model |]; simpl;
      [| do 2 eexists; reflexivity].
    destruct (model g) as [e | [s |]] eqn:Hg; simpl.
    + do 2 eexists; reflexivity.
    + exfalso. apply (Hsrc s). reflexivity.
    + destruct (File.uri g); simpl; do 2 eexists; reflexivity.
Qed.

Lemma call_unresolved `{Extern} (g : File.t) (w : World) :
  unresolved (self w) g ->
  (exists e, fst (__call__ g w) = inl e) /\ self (snd (__call__ g w)) = self w.
Proof.
  intros Hg. destruct (@raw_scores_unresolved g w Hg) as (e & w1 & Hraw).
  pose proof (raw_scores_self g w) as Hself. rewrite Hraw in Hself. simpl in Hself.
  unfold __call__. rewrite (bind_inl (raw_scores g) _ w Hraw). simpl.
  split; [exists e; reflexivity | exact Hself].
Qed.

Lemma raw_scores_fst_self (f : File.t) (w w' : World) :
  self w = self w' -> fst (raw_scores f w) = fst (raw_scores f w').
Proof.
  intros Hself. apply raw_scores_reads_wiring_only.
  rewrite Hself. apply same_wiring_refl.
Qed.

(** X3. A call on a file for which no scores are found fails and leaves
    the instance as it was, flag included.  So the flag [log_scale_] is
    decided by the first file whose scores are found, not by the first
    file evaluated: after any number of files with no scores, then a file
    with the curve [s], then any other files, the flag is the one of the
    mean of [s]. *)
Theorem first_resolved_curve_decides `{Extern}
    (w : World) (skipped : list File.t) (f : File.t) (s : SlidingWindowFeature.t)
    (rest : list File.t) :
  log_scale_ (self w) = None ->
  Forall (unresolved (self w)) skipped ->
  fst (raw_scores f w) = inr s ->
  self (snd (evaluate_all skipped w)) = self w
  /\ Forall (fun r => exists e, r = inl e) (fst (evaluate_all skipped w))
  /\ log_scale_ (self (snd (evaluate_all (skipped ++ f :: rest) w)))
     = Some (PrimFloat.ltb (nanmean (SlidingWindowFeature.data s)) 0).
Proof.
  revert w. induction skipped as [| g skipped IH]; intros w Hnone Hskipped Hraw.
  - split; [reflexivity | split; [constructor |]].
    destruct (raw_scores f w) as [r w1] eqn:Hrw. simpl in Hraw. subst r.
    exact (evaluate_all_first w f rest Hnone Hrw).
  - inversion Hskipped as [| ? ? Hg Hskipped']; subst.
    destruct (@call_unresolved _ g w Hg) as [[e He] Hself].
    simpl. destruct (__call__ g w) as [r w1]. simpl in He, Hself. subst r.
    assert (Hnone1 : log_scale_ (self w1) = None) by (rewrite Hself; exact Hnone).
    assert (Hskipped1 : Forall (unresolved (self w1)) skipped)
      by (rewrite Hself; exact Hskipped').
    assert (Hraw1 : fst (raw_scores f w1) = inr s).
    { rewrite (@raw_scores_fst_self f w1 w Hself). exact Hraw. }
    destruct (IH w1 Hnone1 Hskipped1 Hraw1) as (IHself & IHerr & IHflag).
    destruct (evaluate_all skipped w1) as [rs w2].
    destruct (evaluate_all (skipped ++ f :: rest) w1) as [rs' w2'].
    simpl in *.
    split; [rewrite IHself; exact Hself |].
    split; [constructor; [exists e; reflexivity | exact IHerr] | exact IHflag].
Qed.

Lemma first_resolved_curve_decides_witness :
  let E := world_of no_scores no_scores in
  let w := fresh (instance_of (Some "scores") (Some no_scores) None) in
  let files := [file_of "a" None; file_of "b" None;
                file_of "log" (Some log_curve); file_of "lin" (Some linear_curve)] in
  log_scale_ (self (snd (@evaluate_all E files w))) = Some true.
Proof.
  intros E w files.
  apply (@first_resolved_curve_decides E w [file_of "a" None; file_of "b" None]
           (file_of "log" (Some log_curve)) log_curve
           [file_of "lin" (Some linear_curve)]).
  - reflexivity.
  - repeat (constructor;
            [split; [reflexivity | intros s Hs; discriminate] |]).
    constructor.
  - reflexivity.
Defined.

(** ** Sequences of calls and initializations *)

Lemma init_outcome `{Extern} (precomputed scores pretrained : option Path)
    (log0 : list Event) :
  __init__ precomputed scores pretrained log0
  = (match pretrained with
     | Some p => inl (NameError (if Path_exists p then "Pretrained" else "torch"))
     | None =>
         inr {| precomputed := kept_location precomputed scores;
                _precomputed := option_map Precomputed (kept_location precomputed scores);
                pretrained := None;
                _pretrained := None;
                onset := Uniform 0 1;
                offset := Uniform 0 1;
                min_duration_on := Uniform 0 2;
                min_duration_off := Uniform 0 2;
                pad_onset := Uniform (-1) 1;
                pad_offset := Uniform (-1) 1;
                _binarize := None;
                log_scale_ := None |}
     end,
     log0 ++ constructor_warnings scores).
Proof.
  unfold __init__, bind, kept_location, constructor_warnings.
  destruct scores as [s |], precomputed as [root |], pretrained as [p |]; simpl;
    rewrite ?app_nil_r; try destruct (Path_exists p); reflexivity.
Qed.

Lemma linear_scores_self `{Extern} s (w : World) :
  self (snd (linear_scores s w)) = self w
  \/ exists b, self (snd (linear_scores s w)) = set_log_scale_ b (self w).
Proof.
  unfold linear_scores, bind, get_self.
  destruct (log_scale_ (self w)) as [b |] eqn:Hb; simpl.
  - rewrite Hb. left. reflexivity.
  - right. destruct (PrimFloat.ltb (nanmean (SlidingWindowFeature.data s)) 0);
      eexists; reflexivity.
Qed.

(** A call changes at most the flag of the instance. *)
Lemma call_self `{Extern} (f : File.t) (w : World) :
  self (snd (__call__ f w)) = self w
  \/ exists b, self (snd (__call__ f w)) = set_log_scale_ b (self w).
Proof.
  unfold __call__, bind.
  pose proof (raw_scores_self f w) as Hraw.
  destruct (raw_scores f w) as [[e | s] w1]; simpl in Hraw; simpl; [left; exact Hraw |].
  pose proof (linear_scores_self s w1) as Hlin. rewrite Hraw in Hlin.
  destruct (linear_scores s w1) as [[e | d] w2]; simpl in Hlin; simpl; [exact Hlin |].
  pose proof (speech_vs_non_speech_state d (SlidingWindowFeature.sliding_window s) w2)
    as Hsp.
  destruct (speech_vs_non_speech d _ w2) as [[e | sp] w3]; simpl in Hsp; subst w3;
    simpl; [exact Hlin |].
  rewrite speech_regions_self. exact Hlin.
Qed.

Lemma invoke_keeps `{Extern} (m : Method) (w : World) :
  let self' := self (invoke m w) in
  precomputed self' = precomputed (self w)
  /\ _precomputed self' = _precomputed (self w)
  /\ pretrained self' = pretrained (self w)
  /\ _pretrained self' = _pretrained (self w)
  /\ hyper_of self' = hyper_of (self w)
  /\ (forall b, log_scale_ (self w) = Some b -> log_scale_ self' = Some b).
Proof.
  destruct m as [f |]; simpl.
  - pose proof (call_keeps_log_scale_ f w) as Hflag.
    destruct (call_self f w) as [Hself | [b Hself]]; rewrite Hself;
      repeat split; try reflexivity;
      intros b' Hb'; rewrite <- Hself; apply Hflag; exact Hb'.
  - repeat split. intros b Hb. exact Hb.
Qed.

(** X4. Whatever calls and initializations are made on an instance, in
    whatever order, its sources ([precomputed], [_precomputed],
    [pretrained], [_pretrained]) and its six hyper-parameter attributes
    stay as they were, and a flag [log_scale_] that is set stays as it
    is: [initialize] does not reset it. *)
Theorem session_keeps_configuration `{Extern} (ms : list Method) (w : World) :
  let self' := self (session ms w) in
  precomputed self' = precomputed (self w)
  /\ _precomputed self' = _precomputed (self w)
  /\ pretrained self' = pretrained (self w)
  /\ _pretrained self' = _pretrained (self w)
  /\ hyper_of self' = hyper_of (self w)
  /\ (forall b, log_scale_ (self w) = Some b -> log_scale_ self' = Some b).
Proof.
  revert w. induction ms as [| m ms IH]; intros w; simpl.
  - repeat split. intros b Hb. exact Hb.
  - destruct (invoke_keeps m w) as (H1 & H2 & H3 & H4 & H5 & H6).
    destruct (IH (invoke m w)) as (I1 & I2 & I3 & I4 & I5 & I6).
    unfold session in *. simpl in *.
    rewrite I1, I2, I3, I4, I5.
    repeat split; try assumption.
    intros b Hb. apply I6, H6, Hb.
Qed.

Lemma session_keeps_configuration_witness :
  let E := world_of no_scores no_scores in
  let w := fresh (instance_of (Some "scores") (Some no_scores) None) in
  let ms := [Call (file_of "log" (Some log_curve)); Initialize;
             Call (file_of "none" None); Call (file_of "lin" (Some linear_curve));
             Initialize] in
  log_scale_ (self (@session E ms (with_log_scale_ false w))) = Some false.
Proof.
  intros E w ms.
  apply (@session_keeps_configuration E ms (with_log_scale_ false w)).
  reflexivity.
Defined.

(** ** Instances that were built *)

(** X5. Take an instance that the constructor built, after any calls and
    initializations, and a file with no scores attached.  If a location
    of precomputed scores was kept ([scores], or else [precomputed]), the
    store opened on that location is asked, once, and its answer stands;
    the attribute [_precomputed] is never missing.  If no location was
    kept, the call fails with [AttributeError] on [_pretrained] and
    nothing is logged: such an instance only ever evaluates files that
    carry their scores. *)
Theorem built_instance_sources `{Extern}
    (precomputed scores pretrained : option Path) (log0 log1 : list Event)
    (built : SpeechActivityDetection.t) (ms : list Method) (f : File.t) :
  __init__ precomputed scores pretrained log0 = (inr built, log1) ->
  File.sad_scores f = None ->
  let w := session ms (fresh built) in
  raw_scores f w
  = match kept_location precomputed scores with
    | Some root => (answer f (Precomputed root f), logged (CallPrecomputed f) w)
    | None => (inl (AttributeError "_pretrained"), w)
    end.
Proof.
  intros Hinit Hs w.
  rewrite init_outcome in Hinit.
  destruct pretrained as [p |]; [discriminate |].
  inversion Hinit as [[Hbuilt Hlog]]. clear Hinit Hlog.
  destruct (session_keeps_configuration ms (fresh built))
    as (Hroot & Hstore & _ & Hmodel & _).
  fold w in Hroot, Hstore, Hmodel.
  rewrite <- Hbuilt in Hroot, Hstore, Hmodel. simpl in Hroot, Hstore, Hmodel.
  unfold raw_scores, bind, get_self, answer, lift. rewrite Hs, Hroot.
  destruct (kept_location precomputed scores) as [root |].
  - rewrite Hstore. simpl.
    destruct (Precomputed root f) as [e | [s |]]; simpl; try reflexivity.
    destruct (File.uri f); reflexivity.
  - rewrite Hmodel. reflexivity.
Qed.

Lemma built_instance_sources_witness :
  let stored : Scorer := fun _ => inr (Some linear_curve) in
  let E := world_of stored no_scores in
  let bare := file_of "b" None in
  let ms := [Initialize; Call (file_of "log" (Some log_curve))] in
  let built :=
    {| precomputed := Some "scores"; _precomputed := Some stored;
       pretrained := None; _pretrained := None;
       onset := Uniform 0 1; offset := Uniform 0 1;
       min_duration_on := Uniform 0 2; min_duration_off := Uniform 0 2;
       pad_onset := Uniform (-1) 1; pad_offset := Uniform (-1) 1;
       _binarize := None; log_scale_ := None |} in
  raw_scores bare (@session E ms (fresh built))
  = (inr linear_curve, logged (CallPrecomputed bare) (@session E ms (fresh built)))
  /\ raw_scores bare (@session E ms (fresh just_built))
     = (inl (AttributeError "_pretrained"), @session E ms (fresh just_built)).
Proof.
  intros stored E bare ms built. split.
  - apply (@built_instance_sources E (Some "old") (Some "scores") None []
             (constructor_warnings (Some "scores")) built ms bare);
      reflexivity.
  - apply (@built_instance_sources E None None None [] [] just_built ms bare);
      reflexivity.
Defined.

(** ** Calls and initialization *)

Lemma speech_vs_non_speech_two_dimensional c rows win (w : World) :
  exists sp, speech_vs_non_speech (Array2 c rows) win w = (inr sp, w).
Proof.
  unfold speech_vs_non_speech, bind. simpl.
  destruct (Nat.ltb 1 c); eexists; reflexivity.
Qed.

Lemma speech_regions_uninitialized `{Extern} f sp (w : World) :
  _binarize (self w) = None ->
  speech_regions f sp w = (inl (AttributeError "_binarize"), w).
Proof.
  intros Hbin. unfold speech_regions, bind, get_self. rewrite Hbin. reflexivity.
Qed.

(** X6. Calling an instance that the constructor built, before it was
    ever initialized, on a file whose scores are found in a
    two-dimensional array: the call fails with [AttributeError] on
    [_binarize], and the flag [log_scale_] has been decided from that
    file all the same. *)
Theorem call_before_initialize `{Extern}
    (precomputed scores pretrained : option Path) (log0 log1 : list Event)
    (built : SpeechActivityDetection.t)
    (f : File.t) (s : SlidingWindowFeature.t) (w1 : World)
    (c : nat) (rows : list (list float)) :
  __init__ precomputed scores pretrained log0 = (inr built, log1) ->
  raw_scores f (fresh built) = (inr s, w1) ->
  SlidingWindowFeature.data s = Array2 c rows ->
  __call__ f (fresh built)
  = (inl (AttributeError "_binarize"),
     with_log_scale_ (PrimFloat.ltb (nanmean (Array2 c rows)) 0) w1).
Proof.
  intros Hinit Hraw Hdata.
  rewrite init_outcome in Hinit.
  destruct pretrained as [p |]; [discriminate |].
  inversion Hinit as [[Hbuilt Hlog]]. clear Hinit Hlog. subst built.
  match type of Hraw with
  | raw_scores f ?w0 = _ =>
      assert (Hnone : log_scale_ (self w0) = None) by reflexivity;
      pose proof (raw_scores_self f w0) as Hself;
      rewrite (call_first w0 f Hnone Hraw)
  end.
  assert (Hbin : _binarize (self w1) = None).
  { rewrite Hraw in Hself. simpl in Hself. rewrite Hself. reflexivity. }
  cbv zeta. rewrite Hdata.
  set (b := PrimFloat.ltb (nanmean (Array2 c rows)) 0).
  assert (Hbin' : _binarize (self (with_log_scale_ b w1)) = None) by exact Hbin.
  destruct b; simpl map_array; cbv iota;
    match goal with
    | |- bind (speech_vs_non_speech (Array2 ?c0 ?rows0) ?win) _ ?w0 = _ =>
        destruct (speech_vs_non_speech_two_dimensional c0 rows0 win w0) as [sp Hsp];
        rewrite (bind_inr (speech_vs_non_speech (Array2 c0 rows0) win) _ w0 Hsp)
    end;
    apply speech_regions_uninitialized; exact Hbin'.
Qed.

Lemma call_before_initialize_witness :
  let E := world_of no_scores no_scores in
  let f := file_of "log" (Some log_curve) in
  @__call__ E f (fresh just_built)
  = (inl (AttributeError "_binarize"), with_log_scale_ true (fresh just_built)).
Proof.
  intros E f.
  apply (@call_before_initialize E None None None [] [] just_built f log_curve
           (fresh just_built) 2
           [[-0.1; -2.3]; [-0.2; -1.7]; [-1.9; -0.15]]%float);
    reflexivity.
Defined.

Lemma raw_scores_ok (f : File.t) (w w1 : World) s :
  raw_scores f w = (inr s, w1) ->
  self w1 = self w
  /\ log w1 = log w ++ match File.sad_scores f with
                       | Some _ => []
                       | None => [consultation (self w) f]
                       end.
Proof.
  unfold raw_scores, bind, get_self, consultation.
  destruct (File.sad_scores f) as [s0 |]; simpl.
  - intros Heq. inversion Heq; subst. rewrite app_nil_r. split; reflexivity.
  - destruct (precomputed (self w)) as [root |].
    + destruct (_precomputed (self w)) as [store |]; simpl; [| discriminate].
      unfold lift. destruct (store f) as [e | [s1 |]]; simpl.
      * discriminate.
      * intros Heq. inversion Heq; subst. split; reflexivity.
      * destruct (File.uri f); discriminate.
    + destruct (_pretrained (self w)) as [model |]; simpl; [| discriminate].
      unfold lift. destruct (model f) as [e | [s1 |]]; simpl.
      * discriminate.
      * intros Heq. inversion Heq; subst. split; reflexivity.
      * destruct (File.uri f); discriminate.
Qed.

Lemma raw_scores_log (f : File.t) (w : World) :
  exists evs,
    log (snd (raw_scores f w)) = log w ++ evs
    /\ forall b sp, ~ In (CallBinarize b sp) evs.
Proof.
  unfold raw_scores, bind, get_self.
  destruct (File.sad_scores f) as [s0 |]; simpl.
  - exists []. rewrite app_nil_r. split; [reflexivity | intros b sp []].
  - destruct (precomputed (self w)) as [root |].
    + destruct (_precomputed (self w)) as [store |]; simpl.
      * exists [CallPrecomputed f]. split.
        -- unfold lift. destruct (store f) as [e | [s1 |]]; simpl; try reflexivity.
           destruct (File.uri f); reflexivity.
        -- intros b sp [Hin | []]. discriminate.
      * exists []. rewrite app_nil_r. split; [reflexivity | intros b sp []].
    + destruct (_pretrained (self w)) as [model |]; simpl.
      * exists [CallPretrained f]. split.
        -- unfold lift. destruct (model f) as [e | [s1 |]]; simpl; try reflexivity.
           destruct (File.uri f); reflexivity.
        -- intros b sp [Hin | []]. discriminate.
      * exists []. rewrite app_nil_r. split; [reflexivity | intros b sp []].
Qed.

Lemma linear_scores_binarize `{Extern} s (w : World) :
  _binarize (self (snd (linear_scores s w))) = _binarize (self w).
Proof.
  destruct (linear_scores_self s w) as [Hself | [b Hself]]; rewrite Hself; reflexivity.
Qed.

(** The binarizer that a call runs is the one the instance holds. *)
Lemma call_events `{Extern} (f : File.t) (w : World) :
  exists evs,
    log (snd (__call__ f w)) = log w ++ evs
    /\ forall b sp, In (CallBinarize b sp) evs -> _binarize (self w) = Some b.
Proof.
  unfold __call__, bind.
  destruct (raw_scores_log f w) as (evs & Hlog & Hno).
  pose proof (raw_scores_self f w) as Hself.
  destruct (raw_scores f w) as [[e | s] w1]; simpl in Hlog, Hself; simpl.
  - exists evs. split; [exact Hlog |]. intros b sp Hin. destruct (Hno b sp Hin).
  - destruct (linear_scores_keeps s w1) as [_ Hlog2].
    pose proof (linear_scores_binarize s w1) as Hbin2.
    destruct (linear_scores s w1) as [[e | d] w2]; simpl in Hlog2, Hbin2; simpl.
    + exists evs. split; [rewrite Hlog2; exact Hlog |].
      intros b sp Hin. destruct (Hno b sp Hin).
    + pose proof (speech_vs_non_speech_state d
                    (SlidingWindowFeature.sliding_window s) w2) as Hsp.
      destruct (speech_vs_non_speech d _ w2) as [[e | sp] w3]; simpl in Hsp; subst w3;
        simpl.
      * exists evs. split; [rewrite Hlog2; exact Hlog |].
        intros b sp Hin. destruct (Hno b sp Hin).
      * destruct (_binarize (self w2)) as [b |] eqn:Hb.
        -- exists (evs ++ [CallBinarize b sp]). split.
           ++ rewrite (speech_regions_log f sp w2 Hb), Hlog2, Hlog, app_assoc.
              reflexivity.
           ++ intros b' sp' Hin. apply in_app_or in Hin.
              destruct Hin as [Hin | [Hin | []]]; [destruct (Hno b' sp' Hin) |].
              inversion Hin; subst. rewrite <- Hself. congruence.
        -- exists evs. split.
           ++ unfold speech_regions, bind, get_self. rewrite Hb. simpl.
              rewrite Hlog2. exact Hlog.
           ++ intros b sp' Hin. destruct (Hno b sp' Hin).
Qed.

Lemma shape0_map_array g a : shape0 (map_array g a) = shape0 a.
Proof. destruct a; simpl; apply length_map. Qed.

Lemma linear_scores_ok `{Extern} s (w w2 : World) d :
  linear_scores s w = (inr d, w2) ->
  log w2 = log w
  /\ _binarize (self w2) = _binarize (self w)
  /\ shape0 d = shape0 (SlidingWindowFeature.data s).
Proof.
  intros Hlin.
  destruct (linear_scores_keeps s w) as [_ Hlog].
  pose proof (linear_scores_binarize s w) as Hbin.
  rewrite Hlin in Hlog, Hbin. simpl in Hlog, Hbin.
  split; [exact Hlog | split; [exact Hbin |]].
  destruct (log_scale_ (self w)) as [b |] eqn:Hb.
  - rewrite (linear_scores_cached s w Hb) in Hlin. inversion Hlin.
    destruct b; [apply shape0_map_array | reflexivity].
  - rewrite (linear_scores_first s w Hb) in Hlin. cbv zeta in Hlin. inversion Hlin.
    destruct (PrimFloat.ltb (nanmean (SlidingWindowFeature.data s)) 0);
      [apply shape0_map_array | reflexivity].
Qed.

Lemma speech_vs_non_speech_ok d win (w w' : World) sp :
  speech_vs_non_speech d win w = (inr sp, w') ->
  w' = w
  /\ SlidingWindowFeature.sliding_window sp = win
  /\ shape0 (SlidingWindowFeature.data sp) = shape0 d.
Proof.
  unfold speech_vs_non_speech, bind.
  destruct d as [xs | c rows]; simpl; [discriminate |].
  destruct (Nat.ltb 1 c); intros Heq; inversion Heq; subst; simpl;
    repeat split.
  unfold column. rewrite !length_map. reflexivity.
Qed.

Lemma speech_regions_ok `{Extern} f sp (w w' : World) ann :
  speech_regions f sp w = (inr ann, w') ->
  exists b tl uri,
    _binarize (self w) = Some b
    /\ Binarize_apply b sp = inr tl
    /\ File.uri f = Some uri
    /\ ann = to_annotation {| Timeline.segments := Timeline.segments tl;
                              Timeline.uri := Some uri |} "speech"
    /\ log w' = log w ++ [CallBinarize b sp].
Proof.
  unfold speech_regions, bind, get_self.
  destruct (_binarize (self w)) as [b |]; simpl; [| discriminate].
  unfold lift. destruct (Binarize_apply b sp) as [e | tl] eqn:Happly; simpl;
    [discriminate |].
  destruct (File.uri f) as [uri |]; simpl; [| discriminate].
  intros Heq. inversion Heq; subst.
  exists b, tl, uri. repeat split; assumption.
Qed.

(** X8. A call that returns an annotation has found scores, has run the
    binarizer the instance holds exactly once, on a curve with as many
    samples as the scores and on their sliding window, and after at most
    one consultation of a source, none when scores are attached.  The
    file has a ['uri'], and the annotation is the timeline the binarizer
    returned, under that uri, labelled with modality "speech". *)
Theorem successful_call `{Extern}
    (w w' : World) (f : File.t) (ann : Annotation.t) :
  __call__ f w = (inr ann, w') ->
  exists s b sp tl uri,
    fst (raw_scores f w) = inr s
    /\ _binarize (self w) = Some b
    /\ Binarize_apply b sp = inr tl
    /\ File.uri f = Some uri
    /\ ann = to_annotation {| Timeline.segments := Timeline.segments tl;
                              Timeline.uri := Some uri |} "speech"
    /\ log w' = log w
                ++ match File.sad_scores f with
                   | Some _ => []
                   | None => [consultation (self w) f]
                   end
                ++ [CallBinarize b sp]
    /\ SlidingWindowFeature.sliding_window sp = SlidingWindowFeature.sliding_window s
    /\ shape0 (SlidingWindowFeature.data sp) = shape0 (SlidingWindowFeature.data s).
Proof.
  unfold __call__, bind. intros Hcall.
  destruct (raw_scores f w) as [[e | s] w1] eqn:Hraw; [discriminate |].
  destruct (raw_scores_ok f w Hraw) as [Hself1 Hlog1].
  destruct (linear_scores s w1) as [[e | d] w2] eqn:Hlin; [discriminate |].
  destruct (linear_scores_ok s w1 Hlin) as (Hlog2 & Hbin2 & Hshape2).
  destruct (speech_vs_non_speech d (SlidingWindowFeature.sliding_window s) w2)
    as [[e | sp] w3] eqn:Hsp; [discriminate |].
  destruct (speech_vs_non_speech_ok _ _ w2 Hsp) as (Hw3 & Hwin & Hshape3). subst w3.
  destruct (speech_regions_ok f sp w2 Hcall)
    as (b & tl & uri & Hbin & Happly & Huri & Hann & Hlog).
  exists s, b, sp, tl, uri.
  split; [reflexivity |].
  split; [rewrite <- Hself1, <- Hbin2; exact Hbin |].
  split; [exact Happly |].
  split; [exact Huri |].
  split; [exact Hann |].
  split; [rewrite Hlog, Hlog2, Hlog1, app_assoc; reflexivity |].
  split; [exact Hwin |].
  rewrite Hshape3. exact Hshape2.
Qed.

Lemma successful_call_witness :
  let E := world_of no_scores no_scores in
  let w := fresh (instance_of None None None) in
  let f := file_of "file1" (Some scenario_curve) in
  exists b sp,
    log (snd (@__call__ E f w)) = [CallBinarize b sp]
    /\ shape0 (SlidingWindowFeature.data sp) = 10.
Proof.
  intros E w f.
  destruct (@__call__ E f w) as [r w'] eqn:Hcall.
  assert (Hok : exists ann, r = inr ann).
  { vm_compute in Hcall. inversion Hcall. eexists; reflexivity. }
  destruct Hok as [ann Hr]. subst r.
  destruct (@successful_call E w w' f ann Hcall)
    as (s & b & sp & tl & uri & Hraw & _ & _ & _ & _ & Hlog & _ & Hshape).
  exists b, sp. split; [exact Hlog |].
  rewrite Hshape. inversion Hraw. reflexivity.
Defined.

(** X7. When the hyper-parameter attributes are assigned and [initialize]
    is then called, every run of the binarizer by the next call is a run
    of the binarizer with exactly those six parameters; and a call that
    returns an annotation has made such a run. *)
Theorem initialize_takes_current_parameters `{Extern}
    (h : Binarize.t) (w : World) (f : File.t) :
  exists evs,
    log (snd ((initialize ;; __call__ f) (with_hyper h w))) = log w ++ evs
    /\ (forall b sp, In (CallBinarize b sp) evs -> b = h)
    /\ (forall ann, fst ((initialize ;; __call__ f) (with_hyper h w)) = inr ann ->
         exists sp, In (CallBinarize h sp) evs).
Proof.
  unfold bind. simpl.
  match goal with
  | |- context [__call__ f ?w0] =>
      destruct (call_events f w0) as (evs & Hlog & Hbin);
      set (w1 := w0) in *
  end.
  assert (Hh : _binarize (self w1) = Some h) by (destruct h; reflexivity).
  exists evs. split; [exact Hlog | split].
  - intros b sp Hin. specialize (Hbin b sp Hin). rewrite Hh in Hbin.
    inversion Hbin. reflexivity.
  - intros ann Hann.
    destruct (__call__ f w1) as [r w2] eqn:Hcall. simpl in Hann. subst r.
    destruct (successful_call w1 f Hcall)
      as (s & b & sp & tl & uri & _ & Hb & _ & _ & _ & Hlog' & _).
    rewrite Hh in Hb. inversion Hb; subst b.
    exists sp. simpl in Hlog. rewrite Hlog' in Hlog.
    change (log w1) with (log w) in Hlog.
    apply app_inv_head in Hlog. rewrite <- Hlog.
    apply in_or_app. right. left. reflexivity.
Qed.

(** ** The exceptions of a call *)

Lemma raw_scores_fails (f : File.t) (w : World) e :
  (exists w1, raw_scores f w = (inl e, w1))
  <-> File.sad_scores f = None
      /\ match consulted (self w) with
         | None => e = AttributeError (source_attribute (self w))
         | Some source =>
             source f = inl e
             \/ (source f = inr None /\ e = no_scores_error f)
         end.
Proof.
  unfold raw_scores, bind, get_self, lift, consulted, source_attribute, no_scores_error.
  destruct (File.sad_scores f) as [s0 |]; simpl.
  { split; [intros [w1 Heq]; discriminate | intros [Hs _]; discriminate]. }
  destruct (precomputed (self w)) as [root |].
  - destruct (_precomputed (self w)) as [store |]; simpl.
    + destruct (store f) as [e0 | [s |]]; simpl.
      * split.
        -- intros [w1 Heq]. inversion Heq. split; [reflexivity | left; reflexivity].
        -- intros [_ [Heq | [Heq _]]]; [| discriminate].
           inversion Heq. eexists. reflexivity.
      * split; [intros [w1 Heq]; discriminate |].
        intros [_ [Heq | [Heq _]]]; discriminate.
      * split.
        -- intros [w1 Heq]. split; [reflexivity | right; split; [reflexivity |]].
           destruct (File.uri f); inversion Heq; reflexivity.
        -- intros [_ [Heq | [_ Heq]]]; [discriminate |]. subst e.
           destruct (File.uri f); eexists; reflexivity.
    + split.
      * intros [w1 Heq]. inversion Heq. split; reflexivity.
      * intros [_ Heq]. subst e. eexists. reflexivity.
  - destruct (_pretrained (self w)) as [model |]; simpl.
    + destruct (model f) as [e0 | [s |]]; simpl.
      * split.
        -- intros [w1 Heq]. inversion Heq. split; [reflexivity | left; reflexivity].
        -- intros [_ [Heq | [Heq _]]]; [| discriminate].
           inversion Heq. eexists. reflexivity.
      * split; [intros [w1 Heq]; discriminate |].
        intros [_ [Heq | [Heq _]]]; discriminate.
      * split.
        -- intros [w1 Heq]. split; [reflexivity | right; split; [reflexivity |]].
           destruct (File.uri f); inversion Heq; reflexivity.
        -- intros [_ [Heq | [_ Heq]]]; [discriminate |]. subst e.
           destruct (File.uri f); eexists; reflexivity.
    + split.
      * intros [w1 Heq]. inversion Heq. split; reflexivity.
      * intros [_ Heq]. subst e. eexists. reflexivity.
Qed.

Lemma linear_scores_returns `{Extern} s (w : World) :
  exists b w2,
    linear_scores s w
    = (inr (if b : bool then map_array np_exp (SlidingWindowFeature.data s)
            else SlidingWindowFeature.data s), w2).
Proof.
  destruct (log_scale_ (self w)) as [b |] eqn:Hb.
  - rewrite (linear_scores_cached s w Hb). exists b. eexists. reflexivity.
  - rewrite (linear_scores_first s w Hb). eexists. eexists. reflexivity.
Qed.

Lemma speech_vs_non_speech_fails d win (w : World) e :
  (exists w', speech_vs_non_speech d win w = (inl e, w'))
  <-> (exists xs, d = Array1 xs) /\ e = IndexError "tuple index out of range".
Proof.
  unfold speech_vs_non_speech, bind.
  destruct d as [xs | c rows]; simpl.
  - split.
    + intros [w' Heq]. inversion Heq. split; [exists xs |]; reflexivity.
    + intros [_ He]. subst e. eexists. reflexivity.
  - split.
    + intros [w' Heq]. destruct (Nat.ltb 1 c); discriminate.
    + intros [[xs Hxs] _]. discriminate.
Qed.

Lemma speech_regions_fails `{Extern} f sp (w : World) e :
  (exists w', speech_regions f sp w = (inl e, w'))
  <-> match _binarize (self w) with
      | None => e = AttributeError "_binarize"
      | Some b =>
          Binarize_apply b sp = inl e
          \/ (exists tl, Binarize_apply b sp = inr tl
                         /\ File.uri f = None /\ e = KeyError "uri")
      end.
Proof.
  unfold speech_regions, bind, get_self, lift.
  destruct (_binarize (self w)) as [b |]; simpl.
  - destruct (Binarize_apply b sp) as [e0 | tl]; simpl.
    + split.
      * intros [w' Heq]. inversion Heq. left. reflexivity.
      * intros [Heq | (tl & Heq & _)]; [| discriminate].
        inversion Heq. eexists. reflexivity.
    + destruct (File.uri f) as [uri |]; simpl.
      * split; [intros [w' Heq]; discriminate |].
        intros [Heq | (tl' & _ & Huri & _)]; discriminate.
      * split.
        -- intros [w' Heq]. inversion Heq. right. exists tl. repeat split.
        -- intros [Heq | (tl' & _ & _ & He)]; [discriminate |].
           subst e. eexists. reflexivity.
  - split.
    + intros [w' Heq]. inversion Heq. reflexivity.
    + intros He. subst e. eexists. reflexivity.
Qed.

Lemma array1_linear b g a xs :
  (if b : bool then map_array g a else a) = Array1 xs ->
  exists ys, a = Array1 ys.
Proof.
  destruct a as [ys | c rows]; [exists ys; reflexivity |].
  destruct b; discriminate.
Qed.

(** X9. The exceptions of a call, all of them and no other.  A call
    fails with [e] exactly in these cases.  No scores are attached and:
    the instance lacks the source it consults ([AttributeError] on
    [_precomputed] or [_pretrained]); or that source raises [e]; or it
    returns nothing (the [ValueError] that names the file, [KeyError] for
    a file with no ['uri']).  The scores found are a one-dimensional
    array ([IndexError]).  Or the call has a curve for the binarizer and:
    the instance has no binarizer ([AttributeError] on [_binarize]); or
    the binarizer raises [e] on that curve; or it returns and the file
    has no ['uri'] ([KeyError]).  The step that puts the scores on a
    linear scale never raises. *)
Theorem call_exceptions `{Extern} (w : World) (f : File.t) (e : exn) :
  (exists w', __call__ f w = (inl e, w')) <-> call_failure w f e.
Proof.
  unfold call_failure, handed, __call__, bind. split.
  - intros [w' Hcall].
    destruct (raw_scores f w) as [[e1 | s] w1] eqn:Hraw.
    { inversion Hcall; subst. left.
      exact (proj1 (raw_scores_fails f w e) (ex_intro _ w' Hraw)). }
    pose proof (raw_scores_self f w) as Hself1. rewrite Hraw in Hself1. simpl in Hself1.
    destruct (linear_scores_returns s w1) as (b0 & w2 & Hlin).
    pose proof (linear_scores_binarize s w1) as Hbin2.
    rewrite Hlin in Hcall, Hbin2. simpl in Hbin2.
    destruct (speech_vs_non_speech _ (SlidingWindowFeature.sliding_window s) w2)
      as [[e3 | sp] w3] eqn:Hsp.
    { inversion Hcall; subst.
      destruct (proj1 (speech_vs_non_speech_fails _ _ _ _) (ex_intro _ w' Hsp))
        as [[xs Hxs] He].
      destruct (array1_linear _ _ _ Hxs) as [ys Hys].
      right. left. exists s, ys. repeat split; assumption. }
    destruct (speech_vs_non_speech_ok _ _ w2 Hsp) as (Hw3 & _ & _). subst w3.
    right. right. exists sp. split.
    + exists s, w1. eexists. exists w2. repeat split; eassumption.
    + rewrite <- Hself1, <- Hbin2.
      exact (proj1 (speech_regions_fails f sp w2 e) (ex_intro _ w' Hcall)).
  - intros [Hnone | [(s & xs & Hraw & Hdata & He) | (sp & Hhanded & Hbin)]].
    + destruct (proj2 (raw_scores_fails f w e) Hnone) as [w1 Hraw].
      rewrite Hraw. exists w1. reflexivity.
    + destruct (raw_scores f w) as [[e1 | s1] w1]; simpl in Hraw; [discriminate |].
      inversion Hraw; subst s1.
      destruct (linear_scores_returns s w1) as (b0 & w2 & Hlin). rewrite Hlin.
      rewrite Hdata.
      destruct (proj2 (speech_vs_non_speech_fails
                         (if b0 then map_array np_exp (Array1 xs) else Array1 xs)
                         (SlidingWindowFeature.sliding_window s) w2 e)) as [w3 Hsp].
      { split; [| exact He]. destruct b0; eexists; reflexivity. }
      rewrite Hsp. exists w3. reflexivity.
    + destruct Hhanded as (s & w1 & d & w2 & Hraw & Hlin & Hsp).
      rewrite Hraw, Hlin, Hsp.
      pose proof (raw_scores_self f w) as Hself1. rewrite Hraw in Hself1. simpl in Hself1.
      pose proof (linear_scores_binarize s w1) as Hbin2.
      rewrite Hlin in Hbin2. simpl in Hbin2.
      apply (proj2 (speech_regions_fails f sp w2 e)).
      rewrite Hbin2, Hself1. exact Hbin.
Qed.

Lemma call_exceptions_witness :
  let E := world_of no_scores no_scores in
  let w := fresh (instance_of None None None) in
  @call_failure E w (file_of "one" (Some (curve_of (Array1 [0.1; 0.9]%float))))
    (IndexError "tuple index out of range")
  /\ @call_failure E w (file_of "none" None) (AttributeError "_pretrained")
  /\ @call_failure E (fresh (instance_of (Some "scores") (Some empty_store) None))
       (file_of "none" None)
       (Raised "PyannoteFeatureExtractionError" "no precomputed features").
Proof.
  intros E w. split; [| split].
  - apply (proj1 (@call_exceptions E w
                    (file_of "one" (Some (curve_of (Array1 [0.1; 0.9]%float))))
                    (IndexError "tuple index out of range"))).
    eexists. reflexivity.
  - apply (proj1 (@call_exceptions E w (file_of "none" None)
                    (AttributeError "_pretrained"))).
    eexists. reflexivity.
  - apply (proj1 (@call_exceptions E
                    (fresh (instance_of (Some "scores") (Some empty_store) None))
                    (file_of "none" None)
                    (Raised "PyannoteFeatureExtractionError" "no precomputed features"))).
    eexists. reflexivity.
Defined.

(** ** The columns of the scores *)

Lemma column_map g c rows :
  rectangular c rows -> 0 < c ->
  column 0 (map (map g) rows) = map g (column 0 rows).
Proof.
  intros Hrect Hc. unfold column.
  induction Hrect as [| r rows Hr _ IH]; simpl; [reflexivity |].
  rewrite IH. destruct r as [| x r]; [simpl in Hr; lia | reflexivity].
Qed.

Lemma raw_scores_attached (f : File.t) (w : World) s :
  File.sad_scores f = Some s -> raw_scores f w = (inr s, w).
Proof. intros Hs. unfold raw_scores, bind. rewrite Hs. reflexivity. Qed.

Lemma speech_regions_uri `{Extern} (f f' : File.t) sp (w : World) :
  File.uri f = File.uri f' -> speech_regions f sp w = speech_regions f' sp w.
Proof.
  intros Huri. unfold speech_regions, bind. rewrite Huri. reflexivity.
Qed.

Lemma speech_vs_non_speech_columns c rows win (w : World) :
  1 < c ->
  speech_vs_non_speech (Array2 c rows) win w
  = (inr {| SlidingWindowFeature.data :=
              Array1 (map (fun x => PrimFloat.sub 1 x) (column 0 rows));
            SlidingWindowFeature.sliding_window := win |}, w).
Proof.
  intros Hc. apply Nat.ltb_lt in Hc.
  unfold speech_vs_non_speech, bind. simpl. rewrite Hc. reflexivity.
Qed.

(** X10. Once the flag [log_scale_] is stored, and for scores with more
    than one value per sample, a call reads component 0 of each sample
    and nothing else of the array: two files with the same ['uri'] and
    the same sliding window, whose score arrays are rectangular and have
    the same column 0, get the same outcome and leave the same state,
    whatever the other columns hold and however many there are. *)
Theorem only_column_zero_is_read `{Extern}
    (w : World) (b : bool) (f f' : File.t) (s s' : SlidingWindowFeature.t)
    (c c' : nat) (rows rows' : list (list float)) :
  log_scale_ (self w) = Some b ->
  File.sad_scores f = Some s ->
  File.sad_scores f' = Some s' ->
  File.uri f = File.uri f' ->
  SlidingWindowFeature.sliding_window s = SlidingWindowFeature.sliding_window s' ->
  SlidingWindowFeature.data s = Array2 c rows ->
  SlidingWindowFeature.data s' = Array2 c' rows' ->
  rectangular c rows -> rectangular c' rows' ->
  1 < c -> 1 < c' ->
  column 0 rows = column 0 rows' ->
  __call__ f w = __call__ f' w.
Proof.
  intros Hb Hs Hs' Huri Hwin Hd Hd' Hrect Hrect' Hc Hc' Hcol.
  unfold __call__.
  rewrite (bind_inr (raw_scores f) _ w (raw_scores_attached f w Hs)).
  rewrite (bind_inr (raw_scores f') _ w (raw_scores_attached f' w Hs')).
  rewrite (bind_inr (linear_scores s) _ w (linear_scores_cached s w Hb)).
  rewrite (bind_inr (linear_scores s') _ w (linear_scores_cached s' w Hb)).
  rewrite Hd, Hd', Hwin.
  assert (Hsame :
    speech_vs_non_speech (if b then map_array np_exp (Array2 c rows) else Array2 c rows)
      (SlidingWindowFeature.sliding_window s') w
    = speech_vs_non_speech
        (if b then map_array np_exp (Array2 c' rows') else Array2 c' rows')
        (SlidingWindowFeature.sliding_window s') w).
  { destruct b; simpl map_array.
    - rewrite !speech_vs_non_speech_columns by assumption.
      rewrite (column_map np_exp Hrect) by lia.
      rewrite (column_map np_exp Hrect') by lia.
      rewrite Hcol. reflexivity.
    - rewrite !speech_vs_non_speech_columns by assumption.
      rewrite Hcol. reflexivity. }
  unfold bind. rewrite Hsame. clear Hsame.
  destruct (speech_vs_non_speech _ _ w) as [[e | sp] w1]; [reflexivity |].
  apply speech_regions_uri. exact Huri.
Qed.

Lemma only_column_zero_is_read_witness :
  let E := world_of no_scores no_scores in
  let w := with_log_scale_ true (fresh (instance_of None None None)) in
  let three :=
    curve_of (Array2 3 [[-0.1; -5; -7]; [-0.2; -6; -1]; [-1.9; 0; -3]]%float) in
  @__call__ E (file_of "f" (Some log_curve)) w
  = @__call__ E (file_of "f" (Some three)) w.
Proof.
  intros E w three.
  apply (@only_column_zero_is_read E w true
           (file_of "f" (Some log_curve)) (file_of "f" (Some three))
           log_curve three
           2 3 [[-0.1; -2.3]; [-0.2; -1.7]; [-1.9; -0.15]]%float
           [[-0.1; -5; -7]; [-0.2; -6; -1]; [-1.9; 0; -3]]%float);
    try reflexivity; try (simpl; lia); repeat constructor.
Defined.

(** ** The regions of the oracle *)

Lemma insert_segment_length s l : length (insert_segment s l) <= S (length l).
Proof.
  induction l as [| x l IH]; simpl; [lia |].
  destruct (seg_eqb s x); simpl; [lia |].
  destruct (seg_ltb s x); simpl; lia.
Qed.

Lemma insertions_length xs : forall acc,
  length (fold_left (fun l s => insert_segment s l) xs acc) <= length xs + length acc.
Proof.
  induction xs as [| x xs IH]; intros acc; simpl; [lia |].
  specialize (IH (insert_segment x acc)).
  pose proof (insert_segment_length x acc). lia.
Qed.

Lemma support_from_length l : forall cur, length (support_from cur l) <= S (length l).
Proof.
  induction l as [| s l IH]; intros cur; simpl; [lia |].
  destruct (PrimFloat.leb (Segment.start s) (Segment.end_ cur)).
  - specialize (IH {| Segment.start := Segment.start cur;
                      Segment.end_ := fmax (Segment.end_ cur) (Segment.end_ s) |}).
    lia.
  - specialize (IH s). simpl. lia.
Qed.

Lemma support_length tl :
  length (Timeline.segments (support tl)) <= length (Timeline.segments tl).
Proof.
  unfold support. simpl. destruct (Timeline.segments tl) as [| s l]; simpl; [lia |].
  apply support_from_length.
Qed.

(** X11. The oracle reads the key ['annotation'] and no other: without it
    the call fails with [KeyError]; with it the call returns, whatever
    else the file record holds, with no more regions than the reference
    has segments, and with none for a reference with no segment. *)
Theorem oracle_total_on_references (f : File.t) :
  match File.annotation f with
  | None => OracleSpeechActivityDetection.__call__ f = inl (KeyError "annotation")
  | Some a =>
      exists speech,
        OracleSpeechActivityDetection.__call__ f = inr speech
        /\ (forall g, File.annotation g = Some a ->
                      OracleSpeechActivityDetection.__call__ g = inr speech)
        /\ length (Annotation.tracks speech) <= length (Annotation.tracks a)
  end.
Proof.
  unfold OracleSpeechActivityDetection.__call__.
  destruct (File.annotation f) as [a |]; [| reflexivity].
  eexists. split; [reflexivity |].
  split; [intros g Hg; rewrite Hg; reflexivity |].
  rewrite <- (length_map fst), to_annotation_segments.
  pose proof (support_length (get_timeline a)) as Hsupport.
  pose proof (insertions_length (map fst (Annotation.tracks a)) []) as Hsort.
  rewrite length_map in Hsort. simpl in Hsort, Hsupport.
  unfold get_timeline in Hsupport. simpl in Hsupport. simpl. lia.
Qed.
